(** * Curtail: a shallow embedding of the image helpers and operations

    Two source files are covered:
    - [src/dist/curtail.js]: the bundled helpers [getFileInfo], [simplify],
      [gcd] and the class [Curtail] with [crop], [convert] and [resize]
      (module [CurtailClass] below);
    - [src/unnamed/part_000]: the exported functions [crop], [convert],
      [resize] and [pad] taking an options object (module [CurtailModule]).

    Conventions of the embedding.
    - Pixel quantities (natural width and height of a decoded bitmap, crop
      rectangle, requested size, padding) are integers, [Z].
    - Numbers are rationals, [Qc], standing for finite binary64 values.
      Where an operator can produce a value that is not representable, in
      the scaling of [resize], its exact result is rounded to binary64
      ([div64], [mul64]: nearest, ties to even).  The quotients of
      [simplify] on exact multiples and the halves of [pad] are exact and
      written with the operators of [Qc].  Integers stand for integer-valued
      numbers, hence below 2^53 in absolute value.  Division by zero, NaN,
      the infinities and overflow are outside the model: [Qcdiv] returns 0
      at a zero divisor, and every statement that reads a quotient assumes
      positive natural dimensions.
    - Strings are [string]; indices are [Z] so that the -1 of [lastIndexOf]
      and the negative offsets of [slice] are those of the source. *)

From Equations Require Import Equations.
From Stdlib Require Import ZArith QArith Qcanon Qround Qpower Lia Lqa Bool.
From Stdlib Require Import Ascii String List.
Import ListNotations.

Local Open Scope string_scope.
Local Open Scope Z_scope.

(** ** Numbers *)

(** An integer seen as a JavaScript number. *)
Definition num (z : Z) : Qc := Q2Qc (inject_Z z).

(** [Math.round]: the nearest integer, halves rounded towards +infinity. *)
Definition Math_round (x : Qc) : Z := Qfloor (x + Q2Qc (1 # 2))%Qc.

(** *** Binary64 rounding

    The value of an arithmetic operator is its exact result rounded to the
    nearest number with a 53-bit significand, ties to the even significand;
    below 2^-1022 the spacing stays 2^-1074. *)

(** [n / d] rounded to the nearest integer, ties to even; [d] positive. *)
Definition round_half_even (n d : Z) : Z :=
  let q := n / d in
  match 2 * (n mod d) ?= d with
  | Lt => q
  | Gt => q + 1
  | Eq => if Z.even q then q else q + 1
  end.

(** [n * 2^k / d] as a numerator and a denominator. *)
Definition scaled (n d k : Z) : Z * Z :=
  if 0 <=? k then (n * 2 ^ k, d) else (n, d * 2 ^ (- k)).

(** The exponent [e] with [2^e <= n / d < 2^(e+1)], for positive [n], [d]. *)
Definition floor_log2 (n d : Z) : Z :=
  let e := Z.log2 n - Z.log2 d in
  let (N, D) := scaled n d (- e) in
  if D <=? N then e else e - 1.

(** [n / d] rounded to binary64, for positive [n] and [d]: the significand
    is [n / d * 2^s] rounded to an integer, with [s] such that it has 53
    bits. *)
Definition round64_pos (n d : Z) : Q :=
  let s := Z.min (52 - floor_log2 n d) 1074 in
  let (N, D) := scaled n d s in
  let m := round_half_even N D in
  if 0 <=? s then Qmake m (Z.to_pos (2 ^ s)) else inject_Z (m * 2 ^ (- s)).

Definition round64 (q : Q) : Q :=
  match Qnum q with
  | 0 => 0%Q
  | Zpos _ => round64_pos (Qnum q) (Zpos (Qden q))
  | Zneg p => (- round64_pos (Zpos p) (Zpos (Qden q)))%Q
  end.

(** The operators [/] and [*] on numbers. *)
Definition div64 (x y : Qc) : Qc := Q2Qc (round64 (x / y)%Qc).
Definition mul64 (x y : Qc) : Qc := Q2Qc (round64 (x * y)%Qc).

(** Half the spacing of binary64 numbers relative to their size: 2^-53. *)
Definition eps : Q := 1 # 9007199254740992.

(** [x || y] on numbers: [y] when [x] is 0 (the only falsy number that
    occurs), [x] otherwise. *)
Definition or_else (x y : Z) : Z := if x =? 0 then y else x.

(** ** math: [gcd] and [simplify] (src/dist/curtail.js, lines 57-89) *)

(** [while (b !== 0) { temp = a; a = b; b = temp % b; } return a;]
    The operator [%] takes the sign of the dividend: [Z.rem]. *)
Equations? gcd (a b : Z) : Z by wf (Z.abs_nat b) lt :=
  gcd a b with Z.eq_dec b 0 => {
    | left _ := a;
    | right _ := gcd b (Z.rem a b) }.
Proof.
  pose proof (Z.rem_bound_abs a b n). lia.
Qed.

(** [simplify] returns the two-element array
    [[numerator / num, denominator / num]]. *)
Definition simplify (numerator denominator : Z) : Qc * Qc :=
  let num_ := gcd numerator denominator in
  ((num numerator / num num_)%Qc, (num denominator / num num_)%Qc).

(** ** Strings *)

(** [s.lastIndexOf(searchString)]: the greatest index at which
    [searchString] occurs in [s], or -1. *)
Fixpoint lastIndexOf_from (searchString s : string) (i found : Z) : Z :=
  let found' := if String.prefix searchString s then i else found in
  match s with
  | EmptyString => found'
  | String _ rest => lastIndexOf_from searchString rest (i + 1) found'
  end.

Definition lastIndexOf (s searchString : string) : Z :=
  lastIndexOf_from searchString s 0 (-1).

(** A relative index of [slice]: negative indices count from the end, and
    the result is clamped to [0 .. len]. *)
Definition relative_index (len k : Z) : Z :=
  if k <? 0 then Z.max (len + k) 0 else Z.min k len.

(** [s.slice(start, end)]; [None] for an omitted [end]. *)
Definition slice (s : string) (start : Z) (end_ : option Z) : string :=
  let len := Z.of_nat (String.length s) in
  let from := relative_index len start in
  let to := match end_ with
            | None => len
            | Some e => relative_index len e
            end in
  if to <=? from then ""
  else substring (Z.to_nat from) (Z.to_nat (to - from)) s.

(** [s] without its first [n] characters. *)
Fixpoint after (n : nat) (s : string) : string :=
  match n, s with
  | O, _ => s
  | S n', String _ rest => after n' rest
  | S _, EmptyString => EmptyString
  end.

(** [s.replace(pattern, replacement)] with a string pattern: the first
    occurrence only.  The replacement text used by the source contains no
    [$], so it is inserted as it is. *)
Fixpoint replace (s pattern replacement : string) : string :=
  if String.prefix pattern s
  then replacement ++ after (String.length pattern) s
  else match s with
       | EmptyString => EmptyString
       | String c rest => String c (replace rest pattern replacement)
       end.

(** [array.includes(x)] on an array of strings. *)
Definition includes (l : list string) (x : string) : bool :=
  existsb (String.eqb x) l.

(** ** extract: [getFileInfo] (src/dist/curtail.js, lines 19-38) *)

Record FileInfo := { name : string; ext : string }.

Definition getFileInfo (src : string) : FileInfo :=
  let nameIndex := 0 in
  let nameIndex :=
    if -1 <? lastIndexOf src "/" then lastIndexOf src "/" else nameIndex in
  let extIndex := lastIndexOf src "." in
  {| name := slice src (nameIndex + 1) (Some extIndex);
     ext := slice src (extIndex + 1) None |}.

(** ** The host platform

    The operations talk to three collaborators of the browser: image
    elements whose [src] is set and which later receive a [load] or an
    [error] event, a canvas with its 2D context, and anchor elements that
    are clicked to save a file.  The host is a parameter of every
    operation. *)

(** The value a host passes to an [error] listener. *)
Inductive PlatformError := platform_error (id : nat).

Record HTMLImageElement := {
  img_src : string;
  img_crossOrigin : option string;
  img_width : Z;
  img_height : Z }.

(** [new Image()]. *)
Definition new_Image : HTMLImageElement :=
  {| img_src := ""; img_crossOrigin := None; img_width := 0; img_height := 0 |}.

(** Calls made on the 2D context that leave a mark on the surface.
    [fillRect] carries the fill style current at the call. *)
Inductive DrawCall :=
| fillRect (fillStyle : string) (x y w h : Qc)
| drawImage3 (image : HTMLImageElement) (dx dy : Qc)
| drawImage5 (image : HTMLImageElement) (dx dy dw dh : Qc)
| drawImage9 (image : HTMLImageElement) (sx sy sw sh dx dy dw dh : Qc).

(** A canvas element together with its context.  The record keeps the
    sizes the source assigns; the host keeps them unchanged when they are
    non-negative integers below 2^31, and its coercion of other values is
    not part of the source. *)
Record Canvas := {
  canvas_width : Z;
  canvas_height : Z;
  ctx_fillStyle : string;
  ctx_calls : list DrawCall }.

(** [document.createElement('canvas')] with [getContext('2d')]. *)
Definition new_canvas : Canvas :=
  {| canvas_width := 300; canvas_height := 150;
     ctx_fillStyle := "#000000"; ctx_calls := [] |}.

(** What the host answers once the [src] of an image element is set. *)
Inductive LoadOutcome :=
| load (naturalWidth naturalHeight : Z)
| error (err : PlatformError)
| stalled.

Record Host := {
  fetch : string -> option string -> LoadOutcome;
  toDataURL : Canvas -> string -> string }.

(** The answer of the host to an image element whose [src] is set. *)
Definition answer (host : Host) (image : HTMLImageElement) : LoadOutcome :=
  fetch host (img_src image) (img_crossOrigin image).

(** An anchor element that was clicked. *)
Record Anchor := { href : string; download : string }.

Inductive Settlement :=
| pending
| fulfilled (value : HTMLImageElement)
| rejected (reason : PlatformError).

Inductive Exception :=
| ReferenceError (identifier : string)
| TypeError (message : string).

(** Everything one call of an operation can touch.  [originalImage] is the
    element of the source; [resultImage] is the second element of the call
    ([croppedImage], [convertedImage], [paddedImage], [newImage]) as it is
    when its [src] is set. *)
Record State := {
  canvas : option Canvas;
  originalImage : option HTMLImageElement;
  resultImage : option HTMLImageElement;
  promise : option Settlement;
  clicked : list Anchor;
  warnings : list string }.

Definition initial : State :=
  {| canvas := None; originalImage := None; resultImage := None;
     promise := None; clicked := []; warnings := [] |}.

Definition set_canvas (c : option Canvas) (s : State) : State :=
  {| canvas := c; originalImage := originalImage s;
     resultImage := resultImage s; promise := promise s;
     clicked := clicked s; warnings := warnings s |}.

Definition set_originalImage (i : option HTMLImageElement) (s : State) : State :=
  {| canvas := canvas s; originalImage := i;
     resultImage := resultImage s; promise := promise s;
     clicked := clicked s; warnings := warnings s |}.

Definition set_resultImage (i : option HTMLImageElement) (s : State) : State :=
  {| canvas := canvas s; originalImage := originalImage s;
     resultImage := i; promise := promise s;
     clicked := clicked s; warnings := warnings s |}.

Definition set_promise (p : option Settlement) (s : State) : State :=
  {| canvas := canvas s; originalImage := originalImage s;
     resultImage := resultImage s; promise := p;
     clicked := clicked s; warnings := warnings s |}.

Definition set_clicked (l : list Anchor) (s : State) : State :=
  {| canvas := canvas s; originalImage := originalImage s;
     resultImage := resultImage s; promise := promise s;
     clicked := l; warnings := warnings s |}.

Definition set_warnings (l : list string) (s : State) : State :=
  {| canvas := canvas s; originalImage := originalImage s;
     resultImage := resultImage s; promise := promise s;
     clicked := clicked s; warnings := l |}.

(** ** Listener bodies: state with exceptions *)

Inductive Completion (A : Type) :=
| normal (a : A)
| throw (e : Exception).
Arguments normal {A} a.
Arguments throw {A} e.

Definition M (A : Type) : Type := State -> Completion A * State.

Definition ret {A} (a : A) : M A := fun s => (normal a, s).

Definition bind {A B} (m : M A) (k : A -> M B) : M B :=
  fun s => match m s with
           | (normal a, s') => k a s'
           | (throw e, s') => (throw e, s')
           end.

Notation "x <- m ;; k" := (bind m (fun x => k))
  (at level 61, m at next level, right associativity).
Notation "m ;; k" := (bind m (fun _ => k))
  (at level 61, right associativity).

Definition raise {A} (e : Exception) : M A := fun s => (throw e, s).

Definition modify (f : State -> State) : M unit := fun s => (normal tt, f s).

Definition when (b : bool) (m : M unit) : M unit := if b then m else ret tt.

(** An event listener runs to its end or to its first exception; the host
    reports an uncaught exception and goes on, keeping the effects made
    so far. *)
Definition fire (listener : M unit) (s : State) : State := snd (listener s).

(** *** Canvas and context *)

Definition createCanvas : State -> State := set_canvas (Some new_canvas).

Definition the_canvas : M Canvas :=
  fun s => match canvas s with
           | Some c => (normal c, s)
           | None => (throw (TypeError "canvas is undefined"), s)
           end.

Definition update_canvas (f : Canvas -> Canvas) : M unit :=
  c <- the_canvas ;; modify (set_canvas (Some (f c))).

Definition set_width (v : Z) : M unit :=
  update_canvas (fun c =>
    {| canvas_width := v; canvas_height := canvas_height c;
       ctx_fillStyle := ctx_fillStyle c; ctx_calls := ctx_calls c |}).

Definition set_height (v : Z) : M unit :=
  update_canvas (fun c =>
    {| canvas_width := canvas_width c; canvas_height := v;
       ctx_fillStyle := ctx_fillStyle c; ctx_calls := ctx_calls c |}).

Definition set_fillStyle (v : string) : M unit :=
  update_canvas (fun c =>
    {| canvas_width := canvas_width c; canvas_height := canvas_height c;
       ctx_fillStyle := v; ctx_calls := ctx_calls c |}).

Definition draw (d : DrawCall) : M unit :=
  update_canvas (fun c =>
    {| canvas_width := canvas_width c; canvas_height := canvas_height c;
       ctx_fillStyle := ctx_fillStyle c; ctx_calls := ctx_calls c ++ [d] |}).

Definition ctx_fillRect (x y w h : Qc) : M unit :=
  c <- the_canvas ;; draw (fillRect (ctx_fillStyle c) x y w h).

(** *** Image elements *)

Definition the_originalImage : M HTMLImageElement :=
  fun s => match originalImage s with
           | Some i => (normal i, s)
           | None => (throw (TypeError "image is undefined"), s)
           end.

Definition with_src (i : HTMLImageElement) (v : string) : HTMLImageElement :=
  {| img_src := v; img_crossOrigin := img_crossOrigin i;
     img_width := img_width i; img_height := img_height i |}.

Definition with_crossOrigin (i : HTMLImageElement) (v : option string)
  : HTMLImageElement :=
  {| img_src := img_src i; img_crossOrigin := v;
     img_width := img_width i; img_height := img_height i |}.

Definition with_width (i : HTMLImageElement) (v : Z) : HTMLImageElement :=
  {| img_src := img_src i; img_crossOrigin := img_crossOrigin i;
     img_width := v; img_height := img_height i |}.

Definition with_height (i : HTMLImageElement) (v : Z) : HTMLImageElement :=
  {| img_src := img_src i; img_crossOrigin := img_crossOrigin i;
     img_width := img_width i; img_height := v |}.

Definition set_image_width (v : Z) : M unit :=
  i <- the_originalImage ;; modify (set_originalImage (Some (with_width i v))).

Definition set_image_height (v : Z) : M unit :=
  i <- the_originalImage ;; modify (set_originalImage (Some (with_height i v))).

(** A non-empty string is truthy; [null] and the empty string are not. *)
Definition truthy (v : option string) : bool :=
  match v with
  | Some (String _ _) => true
  | _ => false
  end.

(** [const originalImage = new Image(); ... originalImage.src = src;
     if (crossOrigin) originalImage.crossOrigin = crossOrigin;] *)
Definition source_image (src_ : string) (crossOrigin_ : option string)
  : HTMLImageElement :=
  let i := with_src new_Image src_ in
  if truthy crossOrigin_ then with_crossOrigin i crossOrigin_ else i.

Definition request_image (src_ : string) (crossOrigin_ : option string)
  (s : State) : State :=
  set_originalImage (Some (source_image src_ crossOrigin_)) s.

(** [const result = new Image(); ... result.src = url;] *)
Definition request_result (url : string) : M HTMLImageElement :=
  let i := with_src new_Image url in
  modify (set_resultImage (Some i)) ;; ret i.

(** *** The promise of the call *)

Definition new_Promise : State -> State := set_promise (Some pending).

(** Settling a promise that is already settled does nothing. *)
Definition settle (v : Settlement) : M unit :=
  modify (fun s => match promise s with
                   | Some pending => set_promise (Some v) s
                   | _ => s
                   end).

Definition resolve (value : HTMLImageElement) : M unit := settle (fulfilled value).
Definition reject (reason : PlatformError) : M unit := settle (rejected reason).

(** *** Downloads and the console *)

(** [a = document.createElement('a'); a.href = ...; a.download = ...;
     a.click();] *)
Definition click_link (href_ download_ : string) : M unit :=
  modify (fun s => set_clicked (clicked s ++ [{| href := href_; download := download_ |}]) s).

Definition console_warn (msg : string) : State -> State :=
  fun s => set_warnings (warnings s ++ [msg]) s.

(** ** Running a call

    What the caller gets back ([undefined], the promise, or an exception
    thrown by the call itself), and the state once every event of the call
    has been delivered. *)
Inductive Returned := undefined | the_promise | thrown (e : Exception).

Record Outcome := { returned : Returned; final : State }.

(** The events of an image element whose [src] was set: [load] gives the
    element its natural size and runs the load listener, [error] runs the
    error listener, and a stalled load runs nothing. *)
Definition deliver {A} (host : Host) (image : HTMLImageElement)
  (onload : HTMLImageElement -> M A) (onerror : PlatformError -> M unit)
  (s : State) : option A * State :=
  match answer host image with
  | load w h =>
      match onload (with_height (with_width image w) h) s with
      | (normal a, s') => (Some a, s')
      | (throw _, s') => (None, s')
      end
  | error err => (None, fire (onerror err) s)
  | stalled => (None, s)
  end.

(** The source image of a call: its load listener finds the loaded element
    in [originalImage]. *)
Definition deliver_original {A} (host : Host)
  (onload : M A) (onerror : PlatformError -> M unit)
  (s : State) : option A * State :=
  match originalImage s with
  | Some image =>
      deliver host image
        (fun loaded => modify (set_originalImage (Some loaded)) ;; onload)
        onerror s
  | None => (None, s)
  end.

(** An operation that loads the source and then the image it encoded. *)
Definition two_loads (host : Host) (s : State)
  (loadImage : M HTMLImageElement) (loadImageError : PlatformError -> M unit)
  (loadResult : HTMLImageElement -> M unit)
  (loadResultError : PlatformError -> M unit) : Outcome :=
  match deliver_original host loadImage loadImageError s with
  | (Some resultImage, s1) =>
      {| returned := the_promise;
         final := snd (deliver host resultImage loadResult loadResultError s1) |}
  | (None, s1) => {| returned := the_promise; final := s1 |}
  end.

(** An operation that loads the source only. *)
Definition one_load (host : Host) (s : State)
  (loadImage : M unit) (loadImageError : PlatformError -> M unit) : Outcome :=
  {| returned := the_promise;
     final := snd (deliver_original host loadImage loadImageError s) |}.

(** An identifier that no enclosing scope binds: evaluating it throws. *)
Definition unbound (identifier : string) : M unit :=
  raise (ReferenceError identifier).

(** A property of an options object after [Object.assign(defaults, options)]:
    the caller's value when the property is present, the default otherwise. *)
Definition assigned {A} (default : A) (given : option A) : A :=
  match given with
  | Some v => v
  | None => default
  end.

(** ** utils.js (required by src/unnamed/part_000, not among the sources) *)

Record Fraction := { numerator : Qc; denominator : Qc }.

Module utils.

(** Modelled from the spec: [utils.extractFileInfo], defined in utils.js,
    which is missing.  Section 4.1: the extension is the substring after the
    last [.] (the whole string when there is none); the name is the substring
    between the character after the last [/] (0 if none) and the last [.]. *)
Definition extractFileInfo (src : string) : FileInfo :=
  let nameIndex := lastIndexOf src "/" + 1 in
  let extIndex := lastIndexOf src "." in
  {| name := slice src nameIndex (Some extIndex);
     ext := slice src (extIndex + 1) None |}.

(** Modelled from the spec: [utils.simplify], defined in utils.js, which is
    missing.  Section 4.2: the pair divided by its greatest common divisor,
    computed by the iterative Euclidean algorithm; the callers read the
    result through [numerator] and [denominator]. *)
Definition simplify (width height : Z) : Fraction :=
  let g := gcd width height in
  {| numerator := (num width / num g)%Qc;
     denominator := (num height / num g)%Qc |}.

End utils.

(** ** src/unnamed/part_000: the exported functions *)

Module CurtailModule.

(** The options object of a call; [None] is an absent property. *)
Record Options := {
  preserveAspectRatio : option bool;
  paddingColor : option string;
  autoDownload : option bool;
  crossOrigin : option string }.

(** [{}], the default of the [options] parameter. *)
Definition no_options : Options :=
  {| preserveAspectRatio := None; paddingColor := None;
     autoDownload := None; crossOrigin := None |}.

(** Lines 36-78. *)
Definition crop (host : Host) (path : string) (x y width height : Z)
  (options : Options) : Outcome :=
  let autoDownload_ := assigned false (autoDownload options) in
  let crossOrigin_ := crossOrigin options in
  let s := createCanvas initial in
  let fileInfo := utils.extractFileInfo path in
  let s := request_image path crossOrigin_ (new_Promise s) in
  two_loads host s
    (* loadImage *)
    (set_width width ;;
     set_height height ;;
     image <- the_originalImage ;;
     draw (drawImage9 image (num x) (num y) (num width) (num height)
             (num 0) (num 0) (num width) (num height)) ;;
     c <- the_canvas ;;
     request_result
       (replace (toDataURL host c ("image/" ++ ext fileInfo))
          ("image/" ++ ext fileInfo) "image/octet-stream"))
    (* loadImageError *)
    (fun err => reject err)
    (* loadCroppedImage *)
    (fun croppedImage =>
       when autoDownload_
         (click_link (img_src croppedImage) (name fileInfo ++ "." ++ ext fileInfo)) ;;
       resolve croppedImage)
    (* loadCroppedImageError: its first statement names [loadCroppedImage],
       the name of the function expression of the load listener, which is
       bound inside that function only *)
    (fun err =>
       unbound "loadCroppedImage" ;;
       reject err).

(** Lines 94-145. *)
Definition convert (host : Host) (path : string) (format : string)
  (options : Options) : Outcome :=
  let autoDownload_ := assigned false (autoDownload options) in
  let crossOrigin_ := crossOrigin options in
  let nonTransparentFormats := ["jpg"; "jpeg"; "gif"; "bmp"] in
  let fileInfo := utils.extractFileInfo path in
  if String.eqb (ext fileInfo) format
  then {| returned := undefined; final := initial |}
  else
    let s := createCanvas initial in
    let s := request_image path crossOrigin_ (new_Promise s) in
    two_loads host s
      (* loadImage *)
      (image <- the_originalImage ;;
       set_width (img_width image) ;;
       set_height (img_height image) ;;
       when (includes nonTransparentFormats format)
         (set_fillStyle "#FFF" ;;
          c <- the_canvas ;;
          ctx_fillRect (num 0) (num 0) (num (canvas_width c)) (num (canvas_height c))) ;;
       draw (drawImage3 image (num 0) (num 0)) ;;
       c <- the_canvas ;;
       request_result (toDataURL host c ("image/" ++ format)))
      (* loadImageError *)
      (fun err => reject err)
      (* loadConvertedImage *)
      (fun convertedImage =>
         when autoDownload_
           (click_link (img_src convertedImage) (name fileInfo ++ "." ++ format)) ;;
         resolve convertedImage)
      (* loadConvertedImageError *)
      (fun err => reject err).

(** Lines 163-203.  The [autoDownload] branch reads [convertedImage], which
    no scope of [resize] binds. *)
Definition resize (host : Host) (path : string) (dimension : string) (size : Z)
  (options : Options) : Outcome :=
  let preserveAspectRatio_ := assigned true (preserveAspectRatio options) in
  let autoDownload_ := assigned false (autoDownload options) in
  let crossOrigin_ := crossOrigin options in
  let s := request_image path crossOrigin_ (new_Promise initial) in
  one_load host s
    (* loadImage *)
    (image <- the_originalImage ;;
     let aspectRatio := utils.simplify (img_width image) (img_height image) in
     (if String.eqb dimension "width" then
        set_image_width size ;;
        when preserveAspectRatio_
          (set_image_height
             (Math_round
                (mul64 (div64 (denominator aspectRatio) (numerator aspectRatio))
                   (num size))))
      else if String.eqb dimension "height" then
        set_image_height size ;;
        when preserveAspectRatio_
          (set_image_width
             (Math_round
                (mul64 (div64 (numerator aspectRatio) (denominator aspectRatio))
                   (num size))))
      else ret tt) ;;
     when autoDownload_ (unbound "convertedImage") ;;
     resized <- the_originalImage ;;
     resolve resized)
    (* loadImageError *)
    (fun err => reject err).

(** Lines 222-272.  The [autoDownload] branch of the second load listener
    reads [format], which no scope of [pad] binds. *)
Definition pad (host : Host) (path : string) (padding : Z)
  (options : Options) : Outcome :=
  let paddingColor_ := assigned "transparent" (paddingColor options) in
  let autoDownload_ := assigned false (autoDownload options) in
  let crossOrigin_ := crossOrigin options in
  let s := createCanvas initial in
  let fileInfo := utils.extractFileInfo path in
  let s := request_image path crossOrigin_ (new_Promise s) in
  two_loads host s
    (* loadImage *)
    (image <- the_originalImage ;;
     set_width (img_width image + padding * 2) ;;
     set_height (img_height image + padding * 2) ;;
     when (negb (String.eqb paddingColor_ "transparent"))
       (set_fillStyle paddingColor_ ;;
        c <- the_canvas ;;
        ctx_fillRect (num 0) (num 0) (num (canvas_width c)) (num (canvas_height c))) ;;
     c <- the_canvas ;;
     draw (drawImage5 image
             (num (canvas_width c) / num 2 - num (img_width image) / num 2)%Qc
             (num (canvas_height c) / num 2 - num (img_height image) / num 2)%Qc
             (num (img_width image)) (num (img_height image))) ;;
     c <- the_canvas ;;
     request_result (toDataURL host c ("image/" ++ ext fileInfo)))
    (* loadImageError *)
    (fun err => reject err)
    (* loadPaddedImage *)
    (fun paddedImage =>
       when autoDownload_ (unbound "format") ;;
       resolve paddedImage)
    (* loadPaddedImageError *)
    (fun err => reject err).

End CurtailModule.

(** ** src/dist/curtail.js: the class [Curtail]

    The file declares [getFileInfo], [simplify] and [gcd] at its top level;
    the methods [convert] and [resize] call them as [extract.getFileInfo]
    and [math.simplify].  Neither [extract] nor [math] is bound anywhere in
    the file, so reading either name throws a ReferenceError, as for every
    other unbound identifier. *)

Module CurtailClass.

(** An entry of [this.FORMAT]. *)
Record Format := { format_ext : string; transparent : bool }.

Definition PNG : Format := {| format_ext := "png"; transparent := true |}.
Definition JPG : Format := {| format_ext := "jpg"; transparent := false |}.
Definition GIF : Format := {| format_ext := "gif"; transparent := false |}.
Definition BMP : Format := {| format_ext := "bmp"; transparent := false |}.
Definition WEBP : Format := {| format_ext := "webp"; transparent := true |}.
Definition PDF : Format := {| format_ext := "pdf"; transparent := true |}.

Definition FORMAT : list Format := [PNG; JPG; GIF; BMP; WEBP; PDF].

(** [this._options] as the constructor leaves it. *)
Record Curtail := { autoDownload : bool; crossOrigin : option string }.

(** [new Curtail()]: the defaults of the constructor. *)
Definition new_Curtail : Curtail :=
  {| autoDownload := false; crossOrigin := None |}.

(** [extract.getFileInfo(src)], a statement of the method itself: the
    identifier [extract] is unbound. *)
Definition extract_getFileInfo (src : string) : Completion FileInfo :=
  throw (ReferenceError "extract").

(** [math.simplify(width, height)], inside a listener: the identifier
    [math] is unbound. *)
Definition math_simplify (width height : Z) : M (Qc * Qc) :=
  raise (ReferenceError "math").

(** Lines 167-221. *)
Definition crop (this : Curtail) (host : Host) (src : string)
  (x y width height : Z) : Outcome :=
  let s := createCanvas initial in
  let nameIndex := or_else (lastIndexOf src "/" + 1) 0 in
  let extIndex := lastIndexOf src "." in
  let srcName := slice src nameIndex (Some extIndex) in
  let srcExt := slice src (extIndex + 1) None in
  let s := request_image src (crossOrigin this) (new_Promise s) in
  two_loads host s
    (* originalImage.onload *)
    (set_width width ;;
     set_height height ;;
     image <- the_originalImage ;;
     draw (drawImage9 image (num x) (num y) (num width) (num height)
             (num 0) (num 0) (num width) (num height)) ;;
     c <- the_canvas ;;
     request_result
       (replace (toDataURL host c ("image/" ++ srcExt))
          ("image/" ++ srcExt) "image/octet-stream"))
    (* originalImage.onerror *)
    (fun err => reject err)
    (* croppedImage.onload *)
    (fun croppedImage =>
       when (autoDownload this)
         (click_link (img_src croppedImage) (srcName ++ "." ++ srcExt)) ;;
       resolve croppedImage)
    (* croppedImage.onerror *)
    (fun err => reject err).

(** Lines 233-297.  The first statement throws, so the method ends there,
    before the comparison of the formats. *)
Definition convert (this : Curtail) (host : Host) (src : string)
  (format : Format) : Outcome :=
  match extract_getFileInfo src with
  | throw e => {| returned := thrown e; final := initial |}
  | normal fileInfo =>
  if String.eqb (ext fileInfo) (format_ext format)
  then {| returned := undefined;
          final := console_warn "Image is already in desired format." initial |}
  else
    let s := createCanvas initial in
    let s := request_image src (crossOrigin this) (new_Promise s) in
    two_loads host s
      (* originalImage.onload *)
      (image <- the_originalImage ;;
       set_width (img_width image) ;;
       set_height (img_height image) ;;
       when (negb (transparent format))
         (set_fillStyle "#FFF" ;;
          c <- the_canvas ;;
          ctx_fillRect (num 0) (num 0) (num (canvas_width c)) (num (canvas_height c))) ;;
       draw (drawImage3 image (num 0) (num 0)) ;;
       c <- the_canvas ;;
       request_result (toDataURL host c ("image/" ++ format_ext format)))
      (* originalImage.onerror *)
      (fun err => reject err)
      (* newImage.onload *)
      (fun newImage =>
         when (autoDownload this)
           (click_link (img_src newImage) (name fileInfo ++ "." ++ format_ext format)) ;;
         resolve newImage)
      (* newImage.onerror *)
      (fun err => reject err)
  end.

(** Lines 314-351; [None] for an omitted [preserveAspectRatio], whose
    default is [true].  The load listener throws at its first statement. *)
Definition resize (this : Curtail) (host : Host) (src : string)
  (dimension : string) (size : Z) (preserveAspectRatio : option bool) : Outcome :=
  let preserveAspectRatio_ := assigned true preserveAspectRatio in
  let s := request_image src (crossOrigin this) (new_Promise initial) in
  one_load host s
    (* image.onload *)
    (image <- the_originalImage ;;
     aspectRatio <- math_simplify (img_width image) (img_height image) ;;
     (if String.eqb dimension "width" then
        set_image_width size ;;
        when preserveAspectRatio_
          (set_image_height
             (Math_round
                (mul64 (div64 (snd aspectRatio) (fst aspectRatio)) (num size))))
      else if String.eqb dimension "height" then
        set_image_height size ;;
        when preserveAspectRatio_
          (set_image_width
             (Math_round
                (mul64 (div64 (fst aspectRatio) (snd aspectRatio)) (num size))))
      else ret tt) ;;
     resized <- the_originalImage ;;
     resolve resized)
    (* image.onerror *)
    (fun err => reject err).

End CurtailClass.

(** ** Observations used in the statements *)

(** An image element after its [load] event. *)
Definition loaded (image : HTMLImageElement) (w h : Z) : HTMLImageElement :=
  with_height (with_width image w) h.

(** Width and height of the source image element when the call is over. *)
Definition handle_size (o : Outcome) : option (Z * Z) :=
  option_map (fun i => (img_width i, img_height i)) (originalImage (final o)).

(** The settlement of the promise a call returned. *)
Definition settlement (o : Outcome) : option Settlement := promise (final o).

(** The calls made on the context of the destination surface. *)
Definition surface_calls (o : Outcome) : list DrawCall :=
  match canvas (final o) with
  | Some c => ctx_calls c
  | None => []
  end.

(** The size of the destination surface. *)
Definition surface_size (o : Outcome) : option (Z * Z) :=
  option_map (fun c => (canvas_width c, canvas_height c)) (canvas (final o)).

(** The surface as both versions of [crop] leave it: the region of the
    source drawn at the origin of a [width] x [height] canvas. *)
Definition crop_surface (image : HTMLImageElement) (x y width height : Z)
  : Canvas :=
  {| canvas_width := width; canvas_height := height;
     ctx_fillStyle := "#000000";
     ctx_calls := [drawImage9 image (num x) (num y) (num width) (num height)
                     (num 0) (num 0) (num width) (num height)] |}.

(** Whether the character [c] occurs in [s]. *)
Fixpoint contains_char (c : ascii) (s : string) : bool :=
  match s with
  | EmptyString => false
  | String c' rest => (Ascii.eqb c c' || contains_char c rest)%bool
  end.



(** The [src] of the image a call resolved with. *)
Definition resolved_src (o : Outcome) : option string :=
  match settlement o with
  | Some (fulfilled value) => Some (img_src value)
  | _ => None
  end.

(** *** Sample hosts *)

(** Every source decodes to a 100x50 bitmap; the encoder honours the
    requested type. *)
Definition host_100x50 : Host :=
  {| fetch := fun _ _ => load 100 50;
     toDataURL := fun _ type => "data:" ++ type ++ ";base64,AAAA" |}.

(** Every source decodes to a 640x480 bitmap. *)
Definition host_640x480 : Host :=
  {| fetch := fun _ _ => load 640 480;
     toDataURL := fun _ type => "data:" ++ type ++ ";base64,AAAA" |}.

(** Every source decodes to a 100x100 bitmap; the encoder honours the
    requested type. *)
Definition host_100x100 : Host :=
  {| fetch := fun _ _ => load 100 100;
     toDataURL := fun _ type => "data:" ++ type ++ ";base64,AAAA" |}.


(** A host on which files decode and the data URI of an empty surface,
    [data:,], does not. *)
Definition host_empty_surface : Host :=
  {| fetch := fun url _ =>
       if String.prefix "data:" url then error (platform_error 1)
       else load 100 100;
     toDataURL := fun c type =>
       if ((canvas_width c =? 0) || (canvas_height c =? 0))%bool then "data:,"
       else "data:" ++ type ++ ";base64,AAAA" |}.

(** The surface as [convert] of part_000 leaves it: the size of the
    source, painted white first when [white] is set, then the source drawn
    at the origin. *)
Definition convert_surface (white : bool) (image : HTMLImageElement) : Canvas :=
  {| canvas_width := img_width image; canvas_height := img_height image;
     ctx_fillStyle := if white then "#FFF" else "#000000";
     ctx_calls :=
       ((if white
         then [fillRect "#FFF" (num 0) (num 0)
                 (num (img_width image)) (num (img_height image))]
         else [])
        ++ [drawImage3 image (num 0) (num 0)])%list |}.

(** The surface as [pad] leaves it. *)
Definition pad_surface (color : string) (image : HTMLImageElement) (padding : Z)
  : Canvas :=
  let W := img_width image + padding * 2 in
  let H := img_height image + padding * 2 in
  {| canvas_width := W; canvas_height := H;
     ctx_fillStyle := if String.eqb color "transparent" then "#000000" else color;
     ctx_calls :=
       ((if String.eqb color "transparent" then []
         else [fillRect color (num 0) (num 0) (num W) (num H)])
        ++ [drawImage5 image
              (num W / num 2 - num (img_width image) / num 2)%Qc
              (num H / num 2 - num (img_height image) / num 2)%Qc
              (num (img_width image)) (num (img_height image))])%list |}.

(** A host on which no image loads. *)
Definition host_offline : Host :=
  {| fetch := fun _ _ => error (platform_error 7);
     toDataURL := fun _ type => "data:" ++ type ++ ";base64,AAAA" |}.

(** A host on which files decode as 100x100 and no data URI does. *)
Definition host_no_data_uri : Host :=
  {| fetch := fun url _ =>
       if String.prefix "data:" url then error (platform_error 2)
       else load 100 100;
     toDataURL := fun _ type => "data:" ++ type ++ ";base64,AAAA" |}.

(** ** Proof automation: unfolding one call *)

(** Unfolds the drivers of a call and the observations. *)
Ltac run_call :=
  unfold one_load, two_loads, deliver_original, request_image, deliver,
    handle_size, settlement, surface_calls, surface_size, resolved_src;
  cbn [originalImage resultImage canvas promise clicked warnings final
       returned set_originalImage set_canvas set_promise new_Promise
       createCanvas initial].

(** Running the listeners, leaving arithmetic and strings as they are. *)
Ltac listeners :=
  cbn -[utils.simplify simplify gcd Math_round num Qcdiv Qcmult Qcminus
        div64 mul64 Z.gcd Z.div Z.mul Z.add replace String.append includes
        utils.extractFileInfo getFileInfo lastIndexOf slice].

(** Whatever happens to the image that was encoded, the rest of the goal
    does not depend on it. *)
Ltac any_answer :=
  repeat match goal with
         | |- context [match answer ?h ?i with _ => _ end] =>
             destruct (answer h i)
         | |- context [when (assigned ?d ?o) _] => destruct (assigned d o)
         | |- context [when (CurtailClass.autoDownload ?this) _] =>
             destruct (CurtailClass.autoDownload this)
         end.

(** Runs a call up to the answer of the host for the source image. *)
Ltac source_answer H :=
  run_call; rewrite H; listeners.

(** Splits on the answer for the source and, when it loaded, on the answer
    for the encoded image; the hypotheses name the encoded image [r]. *)
Ltac result_answer r :=
  run_call;
  match goal with
  | |- context [match answer ?h ?i with _ => _ end] =>
      destruct (answer h i); listeners; try discriminate
  end;
  try match goal with
      | |- context [when (includes ?l ?f) _] =>
          destruct (includes l f); listeners
      | |- context [when (negb (String.eqb ?a ?b)) _] =>
          destruct (String.eqb a b); listeners
      | |- context [when (negb (CurtailClass.transparent ?f)) _] =>
          destruct (CurtailClass.transparent f); listeners
      end;
  match goal with
  | |- context [match answer ?h ?i with _ => _ end] =>
      let R := fresh "R" in
      remember i as R; destruct (answer h R) eqn:?; listeners
  end;
  try match goal with
      | |- context [when (assigned ?d ?o) _] =>
          destruct (assigned d o); listeners
      | |- context [when (CurtailClass.autoDownload ?t) _] =>
          destruct (CurtailClass.autoDownload t); listeners
      end;
  intros Hr Ha; injection Hr as Hr; subst r; congruence.

(** Brings the call to the answer of the host for the encoded image, which
    the hypothesis [Hr] gives. *)
Ltac encoded_answer Hr :=
  match type of Hr with
  | answer ?h ?r = _ =>
      match goal with
      | |- context [match answer h ?i with _ => _ end] =>
          change i with r; rewrite Hr; listeners
      end
  end.

(** Case analysis on every answer of the host and every guard of a call. *)
Ltac all_answers :=
  run_call;
  repeat (listeners;
          match goal with
          | |- context [match answer ?h ?i with _ => _ end] =>
              destruct (answer h i)
          | |- context [when (includes ?l ?f) _] => destruct (includes l f)
          | |- context [when (negb (String.eqb ?a ?b)) _] =>
              destruct (String.eqb a b)
          | |- context [when (negb (CurtailClass.transparent ?f)) _] =>
              destruct (CurtailClass.transparent f)
          | |- context [if String.eqb ?a ?b then _ else _] =>
              destruct (String.eqb a b)
          | |- context [when (assigned ?d ?o) _] => destruct (assigned d o)
          end);
  listeners.

Ltac inject_Z_out :=
  unfold Z.sub;
  repeat (rewrite inject_Z_plus || rewrite inject_Z_mult || rewrite inject_Z_opp).

(** * Properties *)

(** ** The Euclidean loop and the simplified fraction *)

Lemma gcd_done (a : Z) : gcd a 0 = a.
Proof. now simp gcd. Qed.

Lemma gcd_step (a b : Z) : b <> 0 -> gcd a b = gcd b (Z.rem a b).
Proof.
  intros Hb. rewrite gcd_equation_1. simpl.
  destruct (Z.eq_dec b 0) as [E | N]; [contradiction | reflexivity].
Qed.

Lemma Zgcd_rem (a b : Z) : Z.gcd b (Z.rem a b) = Z.gcd a b.
Proof.
  destruct (Z.eq_dec b 0) as [-> | Hb].
  - destruct a; reflexivity.
  - assert (E : Z.rem a b = a + - (a ÷ b) * b).
    { pose proof (Z.quot_rem' a b). lia. }
    rewrite E, Z.gcd_add_mult_diag_r. apply Z.gcd_comm.
Qed.

(** On non-negative integers the loop returns the greatest common divisor. *)
Lemma gcd_is_Zgcd (a b : Z) : 0 <= a -> 0 <= b -> gcd a b = Z.gcd a b.
Proof.
  revert a b.
  apply (gcd_elim (fun a b r => 0 <= a -> 0 <= b -> r = Z.gcd a b)).
  - intros a b -> _ Ha _. rewrite Z.gcd_0_r. lia.
  - intros a b Hb IH _ Ha Hb'. rewrite IH.
    + apply Zgcd_rem.
    + exact Hb'.
    + apply Z.rem_nonneg; lia.
Qed.

(** Whatever the signs, it returns it up to sign. *)
Lemma gcd_abs (a b : Z) : Z.abs (gcd a b) = Z.gcd a b.
Proof.
  revert a b.
  apply (gcd_elim (fun a b r => Z.abs r = Z.gcd a b)).
  - intros a b -> _. now rewrite Z.gcd_0_r.
  - intros a b Hb IH _. rewrite IH. apply Zgcd_rem.
Qed.

Lemma gcd_pos (a b : Z) : 0 < a -> 0 < b -> 0 < gcd a b.
Proof.
  intros Ha Hb. rewrite gcd_is_Zgcd by lia.
  pose proof (Z.gcd_nonneg a b).
  assert (Z.gcd a b <> 0) by (intros E; apply Z.gcd_eq_0_l in E; lia).
  lia.
Qed.

Lemma num_mul (x y : Z) : num (x * y) = (num x * num y)%Qc.
Proof.
  apply Qc_is_canon. unfold num, Qcmult. cbn [this Q2Qc].
  rewrite !Qred_correct, inject_Z_mult. reflexivity.
Qed.

Lemma num_inj (x y : Z) : num x = num y -> x = y.
Proof.
  intros E. apply (f_equal this) in E. cbn [this Q2Qc num] in E.
  assert (E' : (inject_Z x == inject_Z y)%Q).
  { rewrite <- (Qred_correct (inject_Z x)), E. apply Qred_correct. }
  unfold Qeq in E'. simpl in E'. lia.
Qed.

Lemma num_nonzero (g : Z) : g <> 0 -> num g <> num 0.
Proof. intros Hg E. apply num_inj in E. contradiction. Qed.

(** [/] on an exact multiple is the integer quotient. *)
Lemma num_div_exact (x g : Z) :
  g <> 0 -> (g | x) -> (num x / num g)%Qc = num (x / g).
Proof.
  intros Hg [k ->]. rewrite Z.div_mul by exact Hg.
  rewrite num_mul. field. now apply num_nonzero.
Qed.

Lemma simplify_components (a b : Z) :
  0 < a -> 0 < b ->
  simplify a b = (num (a / Z.gcd a b), num (b / Z.gcd a b)).
Proof.
  intros Ha Hb. unfold simplify.
  rewrite gcd_is_Zgcd by lia.
  assert (Z.gcd a b <> 0) by (intros E; apply Z.gcd_eq_0_l in E; lia).
  rewrite !num_div_exact; auto using Z.gcd_divide_l, Z.gcd_divide_r.
Qed.

Lemma utils_simplify_components (a b : Z) :
  0 < a -> 0 < b ->
  utils.simplify a b =
    {| numerator := num (a / Z.gcd a b); denominator := num (b / Z.gcd a b) |}.
Proof.
  intros Ha Hb. unfold utils.simplify.
  rewrite gcd_is_Zgcd by lia.
  assert (Z.gcd a b <> 0) by (intros E; apply Z.gcd_eq_0_l in E; lia).
  rewrite !num_div_exact; auto using Z.gcd_divide_l, Z.gcd_divide_r.
Qed.

Lemma Zgcd_quotients (a b : Z) :
  0 < a -> 0 < b -> Z.gcd (a / Z.gcd a b) (b / Z.gcd a b) = 1.
Proof.
  intros Ha Hb.
  apply Z.gcd_div_gcd; [| reflexivity].
  intros E. apply Z.gcd_eq_0_l in E. lia.
Qed.

(** C1.  [gcd] is the Euclidean loop: it returns [a] when [b] is 0 and
    otherwise goes on with [b] and the remainder of [a] by [b].  For positive
    integers [a] and [b], with [g] the value the loop returns, [g] is the
    greatest common divisor of [a] and [b],
    [simplify a b] is the pair of the integers [a / g] and [b / g], these two
    are coprime according to the same loop, and they are in the ratio of [a]
    to [b]. *)
Theorem simplify_lowest_terms (a b : Z) :
  0 < a -> 0 < b ->
  let g := gcd a b in
  (forall x, gcd x 0 = x) /\
  (forall x y, y <> 0 -> gcd x y = gcd y (Z.rem x y)) /\
  g = Z.gcd a b /\
  simplify a b = ((num a / num g)%Qc, (num b / num g)%Qc) /\
  simplify a b = (num (a / g), num (b / g)) /\
  gcd (a / g) (b / g) = 1 /\
  (a / g) * b = (b / g) * a.
Proof.
  intros Ha Hb g.
  assert (Eg : g = Z.gcd a b) by (apply gcd_is_Zgcd; lia).
  assert (Hg : 0 < g) by (apply gcd_pos; lia).
  destruct (Z.gcd_divide_l a b) as [n Hn], (Z.gcd_divide_r a b) as [d Hd].
  rewrite <- Eg in Hn, Hd.
  assert (En : a / g = n) by (rewrite Hn at 1; apply Z.div_mul; lia).
  assert (Ed : b / g = d) by (rewrite Hd at 1; apply Z.div_mul; lia).
  split; [exact gcd_done |]. split; [exact gcd_step |].
  repeat split.
  - exact Eg.
  - rewrite Eg. now apply simplify_components.
  - rewrite gcd_is_Zgcd.
    + rewrite Eg. now apply Zgcd_quotients.
    + apply Z.div_pos; lia.
    + apply Z.div_pos; lia.
  - rewrite En, Ed. clearbody g. clear - Hn Hd. subst a b. ring.
Qed.

Lemma simplify_lowest_terms_witness :
  (forall x, gcd x 0 = x) /\
  (forall x y, y <> 0 -> gcd x y = gcd y (Z.rem x y)) /\
  gcd 100 50 = Z.gcd 100 50 /\
  simplify 100 50 = ((num 100 / num (gcd 100 50))%Qc, (num 50 / num (gcd 100 50))%Qc) /\
  simplify 100 50 = (num (100 / gcd 100 50), num (50 / gcd 100 50)) /\
  gcd (100 / gcd 100 50) (50 / gcd 100 50) = 1 /\
  (100 / gcd 100 50) * 50 = (50 / gcd 100 50) * 100.
Proof. apply (simplify_lowest_terms 100 50); lia. Defined.

(** C8.  For positive integers [a] and [b] with [g] their greatest common
    divisor, which is what [gcd] returns, multiplying each component of
    [simplify a b] by [g] gives back [a] and [b]. *)
Theorem simplify_round_trip (a b : Z) :
  0 < a -> 0 < b ->
  let g := Z.gcd a b in
  gcd a b = g /\
  (fst (simplify a b) * num g)%Qc = num a /\
  (snd (simplify a b) * num g)%Qc = num b.
Proof.
  intros Ha Hb g.
  assert (Eg : gcd a b = g) by (apply gcd_is_Zgcd; lia).
  assert (Hg : num g <> num 0).
  { apply num_nonzero. pose proof (gcd_pos a b Ha Hb). lia. }
  split; [exact Eg |].
  unfold simplify. rewrite Eg. cbn [fst snd]. split; field; exact Hg.
Qed.

Lemma simplify_round_trip_witness :
  gcd 100 50 = Z.gcd 100 50 /\
  (fst (simplify 100 50) * num (Z.gcd 100 50))%Qc = num 100 /\
  (snd (simplify 100 50) * num (Z.gcd 100 50))%Qc = num 50.
Proof. apply (simplify_round_trip 100 50); lia. Defined.

(** ** Resize *)

Section Resize.

Variables (host : Host) (w h size : Z).
Hypotheses (Hw : 0 < w) (Hh : 0 < h).

Lemma module_resize_width (path : string) (options : CurtailModule.Options) :
  answer host (source_image path (CurtailModule.crossOrigin options)) = load w h ->
  assigned true (CurtailModule.preserveAspectRatio options) = true ->
  handle_size (CurtailModule.resize host path "width" size options) =
    Some (size,
          Math_round
            (mul64 (div64 (num (h / Z.gcd w h)) (num (w / Z.gcd w h))) (num size))).
Proof.
  intros Hl Hp. unfold CurtailModule.resize. run_call.
  rewrite Hl, Hp. listeners.
  rewrite utils_simplify_components by assumption.
  destruct (assigned false (CurtailModule.autoDownload options)); reflexivity.
Qed.

Lemma module_resize_height (path : string) (options : CurtailModule.Options) :
  answer host (source_image path (CurtailModule.crossOrigin options)) = load w h ->
  assigned true (CurtailModule.preserveAspectRatio options) = true ->
  handle_size (CurtailModule.resize host path "height" size options) =
    Some (Math_round
            (mul64 (div64 (num (w / Z.gcd w h)) (num (h / Z.gcd w h))) (num size)),
          size).
Proof.
  intros Hl Hp. unfold CurtailModule.resize. run_call.
  rewrite Hl, Hp. listeners.
  rewrite utils_simplify_components by assumption.
  destruct (assigned false (CurtailModule.autoDownload options)); reflexivity.
Qed.

End Resize.

(** C3.  When the source loads with natural size [w] x [h] (both positive)
    and [preserveAspectRatio] is true, [resize] by ["width"] sets the width to
    the requested size and the height to
    [round(denominator / numerator * size)], and [resize] by ["height"] sets
    the height to the size and the width to
    [round(numerator / denominator * size)], where the fraction is the
    natural size in lowest terms, as [simplify] returns it, and the quotient
    and the product are those of binary64.  A 100x50 source resized by width
    to 200 ends 200 wide and 100 high.  This is the exported function of
    src/unnamed/part_000.  The method of the class in src/dist/curtail.js
    does not get there: on the same source, [resize("photo.png", "width",
    200)] returns a promise, its load listener stops at the unbound [math],
    the element stays 100x50 and the promise stays pending. *)
Theorem resize_keeps_aspect_ratio :
  (forall host w h size, 0 < w -> 0 < h ->
     let ratio := utils.simplify w h in
     simplify w h = (numerator ratio, denominator ratio) /\
     numerator ratio = num (w / Z.gcd w h) /\
     denominator ratio = num (h / Z.gcd w h) /\
     (forall path options,
        answer host (source_image path (CurtailModule.crossOrigin options)) = load w h ->
        assigned true (CurtailModule.preserveAspectRatio options) = true ->
        handle_size (CurtailModule.resize host path "width" size options) =
          Some (size,
                Math_round
                  (mul64 (div64 (denominator ratio) (numerator ratio)) (num size))) /\
        handle_size (CurtailModule.resize host path "height" size options) =
          Some (Math_round
                  (mul64 (div64 (numerator ratio) (denominator ratio)) (num size)),
                size))) /\
  (forall host path options,
     answer host (source_image path (CurtailModule.crossOrigin options)) = load 100 50 ->
     assigned true (CurtailModule.preserveAspectRatio options) = true ->
     handle_size (CurtailModule.resize host path "width" 200 options) = Some (200, 100)) /\
  (let o := CurtailClass.resize CurtailClass.new_Curtail host_100x50
              "photo.png" "width" 200 None in
   returned o = the_promise /\ settlement o = Some pending /\
   handle_size o = Some (100, 50)).
Proof.
  split; [| split].
  - intros host w h size Hw Hh ratio.
    assert (E : ratio = {| numerator := num (w / Z.gcd w h);
                           denominator := num (h / Z.gcd w h) |})
      by (apply utils_simplify_components; assumption).
    split; [reflexivity |]. rewrite E. cbn [numerator denominator].
    split; [reflexivity |]. split; [reflexivity |].
    intros path options Hl Hp. split.
    + now apply module_resize_width.
    + now apply module_resize_height.
  - intros host path options Hl Hp.
    rewrite (module_resize_width host 100 50 200) by (assumption || lia).
    vm_compute. reflexivity.
  - repeat split.
Qed.

Lemma resize_keeps_aspect_ratio_witness :
  handle_size
    (CurtailModule.resize host_100x50 "photo.png" "width" 200 CurtailModule.no_options)
  = Some (200, 100).
Proof.
  apply (proj1 (proj2 resize_keeps_aspect_ratio) host_100x50 "photo.png");
    reflexivity.
Defined.

(** Rounding: 640x480 is 4 : 3, so a height of 100 gives a width of 133 and
    a width of 101 gives a height of 76.  A 600x1300 source by width 27 gives
    a height of 58: the product 13/6 * 27 is 58.49999999999999 in binary64,
    just below the exact 58.5. *)
Example resize_rounds :
  handle_size (CurtailModule.resize host_640x480 "photo.png" "height" 100
                 CurtailModule.no_options) = Some (133, 100) /\
  handle_size (CurtailModule.resize host_640x480 "photo.png" "width" 101
                 CurtailModule.no_options) = Some (101, 76) /\
  Math_round (mul64 (div64 (num 13) (num 6)) (num 27)) = 58 /\
  Math_round (num 13 / num 6 * num 27)%Qc = 59.
Proof. repeat split; vm_compute; reflexivity. Qed.

(** The method of the class: its load listener stops at [math], before any
    size is set and before [resolve], whatever the selector. *)
Lemma class_resize_stops (this : CurtailClass.Curtail) (host : Host)
  (src dimension : string) (size w h : Z) (preserveAspectRatio : option bool) :
  answer host (source_image src (CurtailClass.crossOrigin this)) = load w h ->
  let o := CurtailClass.resize this host src dimension size preserveAspectRatio in
  settlement o = Some pending /\ handle_size o = Some (w, h).
Proof.
  intros Hl o. subst o. unfold CurtailClass.resize. run_call.
  rewrite Hl. split; reflexivity.
Qed.

(** The exported function does the same as long as [autoDownload] is off. *)
Lemma module_resize_other_selector (host : Host) (path dimension : string)
  (size w h : Z) (options : CurtailModule.Options) :
  dimension <> "width" -> dimension <> "height" ->
  answer host (source_image path (CurtailModule.crossOrigin options)) = load w h ->
  assigned false (CurtailModule.autoDownload options) = false ->
  let image := loaded (source_image path (CurtailModule.crossOrigin options)) w h in
  let o := CurtailModule.resize host path dimension size options in
  settlement o = Some (fulfilled image) /\ handle_size o = Some (w, h).
Proof.
  intros Hd1 Hd2 Hl Ha image o. subst o. unfold CurtailModule.resize. run_call.
  apply String.eqb_neq in Hd1, Hd2.
  rewrite Hl, Ha. listeners. rewrite Hd1, Hd2. split; reflexivity.
Qed.

(** With [autoDownload] on, the load listener of the exported function stops
    at [convertedImage]: the size of the element is untouched and the
    promise is left pending. *)
Lemma module_resize_autoDownload (host : Host) (path dimension : string)
  (size w h : Z) (options : CurtailModule.Options) :
  dimension <> "width" -> dimension <> "height" ->
  answer host (source_image path (CurtailModule.crossOrigin options)) = load w h ->
  assigned false (CurtailModule.autoDownload options) = true ->
  let o := CurtailModule.resize host path dimension size options in
  settlement o = Some pending /\ handle_size o = Some (w, h).
Proof.
  intros Hd1 Hd2 Hl Ha o. subst o. unfold CurtailModule.resize. run_call.
  apply String.eqb_neq in Hd1, Hd2.
  rewrite Hl, Ha. listeners. rewrite Hd1, Hd2. split; reflexivity.
Qed.

(** C10.  [resize("photo.png", "depth", 10, {autoDownload: true})] of the
    exported function, on a source that loads as 100x50: width and height
    stay 100 and 50, but the promise is never settled, while the same call
    without [autoDownload] resolves with the unchanged element.  The method
    of the class leaves the promise pending on the same input, for another
    reason: its listener stops at the unbound [math]. *)
Theorem resize_other_selector_autoDownload :
  let options :=
    {| CurtailModule.preserveAspectRatio := None;
       CurtailModule.paddingColor := None;
       CurtailModule.autoDownload := Some true;
       CurtailModule.crossOrigin := None |} in
  let image := loaded (source_image "photo.png" None) 100 50 in
  settlement (CurtailModule.resize host_100x50 "photo.png" "depth" 10 options)
    = Some pending /\
  handle_size (CurtailModule.resize host_100x50 "photo.png" "depth" 10 options)
    = Some (100, 50) /\
  settlement
    (CurtailModule.resize host_100x50 "photo.png" "depth" 10 CurtailModule.no_options)
    = Some (fulfilled image) /\
  settlement
    (CurtailClass.resize CurtailClass.new_Curtail host_100x50 "photo.png" "depth" 10 None)
    = Some pending /\
  handle_size
    (CurtailClass.resize CurtailClass.new_Curtail host_100x50 "photo.png" "depth" 10 None)
    = Some (100, 50).
Proof. repeat split; reflexivity. Qed.

(** ** Convert *)

Lemma includes_nonTransparent (format : string) :
  includes ["jpg"; "jpeg"; "gif"; "bmp"] format = true <->
  format = "jpg" \/ format = "jpeg" \/ format = "gif" \/ format = "bmp".
Proof.
  unfold includes. cbn [existsb]. rewrite !orb_true_iff, !String.eqb_eq.
  intuition discriminate.
Qed.

(** The format objects without transparency are those whose extension is in
    the list of the exported function. *)
Lemma FORMAT_transparent (format : CurtailClass.Format) :
  In format CurtailClass.FORMAT ->
  (CurtailClass.transparent format = false <->
   includes ["jpg"; "jpeg"; "gif"; "bmp"] (CurtailClass.format_ext format) = true).
Proof.
  intros [<- | [<- | [<- | [<- | [<- | [<- | []]]]]]]; cbn; intuition congruence.
Qed.

(** The surface of [convert] of the exported function once the source has
    loaded. *)
Lemma module_convert_calls (host : Host) (path format : string)
  (options : CurtailModule.Options) (w h : Z) :
  ext (utils.extractFileInfo path) <> format ->
  answer host (source_image path (CurtailModule.crossOrigin options)) = load w h ->
  let image := loaded (source_image path (CurtailModule.crossOrigin options)) w h in
  let o := CurtailModule.convert host path format options in
  surface_size o = Some (w, h) /\
  surface_calls o =
    ((if includes ["jpg"; "jpeg"; "gif"; "bmp"] format
      then [fillRect "#FFF" (num 0) (num 0) (num w) (num h)]
      else []) ++ [drawImage3 image (num 0) (num 0)])%list.
Proof.
  intros He Hl image o. subst o image. unfold CurtailModule.convert.
  apply String.eqb_neq in He. rewrite He. run_call. rewrite Hl.
  destruct (includes _ format); listeners; any_answer; split; reflexivity.
Qed.

(** C4.  A [convert] call that proceeds and whose source loads with size
    [w] x [h] paints the whole surface white ([fillRect] of [w] x [h] at the
    origin with fill style [#FFF]) and then draws the source when the target
    format is jpg, jpeg, gif or bmp; for any other format, png, webp and pdf
    among them, the drawing of the source is the only call.  This is the
    exported function of src/unnamed/part_000.  The method of the class in
    src/dist/curtail.js does not get there:
    [convert("photo.png", FORMAT.JPG)] throws a [ReferenceError] at the
    unbound [extract], before any canvas exists, so nothing is filled or
    drawn. *)
Theorem convert_white_background :
  (forall host path format options w h,
     ext (utils.extractFileInfo path) <> format ->
     answer host (source_image path (CurtailModule.crossOrigin options)) = load w h ->
     let image := loaded (source_image path (CurtailModule.crossOrigin options)) w h in
     let calls := surface_calls (CurtailModule.convert host path format options) in
     ((format = "jpg" \/ format = "jpeg" \/ format = "gif" \/ format = "bmp") ->
      calls = [fillRect "#FFF" (num 0) (num 0) (num w) (num h);
               drawImage3 image (num 0) (num 0)]) /\
     (~ (format = "jpg" \/ format = "jpeg" \/ format = "gif" \/ format = "bmp") ->
      calls = [drawImage3 image (num 0) (num 0)]) /\
     ((format = "png" \/ format = "webp" \/ format = "pdf") ->
      calls = [drawImage3 image (num 0) (num 0)])) /\
  (let o := CurtailClass.convert CurtailClass.new_Curtail host_100x50
              "photo.png" CurtailClass.JPG in
   returned o = thrown (ReferenceError "extract") /\
   canvas (final o) = None /\ surface_calls o = []).
Proof.
  split; [| repeat split].
  intros host path format options w h He Hl image calls.
  destruct (module_convert_calls host path format options w h He Hl) as [_ E].
  fold image in E. fold calls in E. clearbody calls. subst calls.
  pose proof (includes_nonTransparent format) as I.
  destruct (includes _ format).
  - repeat split; intros F; try reflexivity.
    + exfalso. apply F, I. reflexivity.
    + apply proj1 in I. specialize (I eq_refl).
      exfalso. intuition (subst; discriminate).
  - repeat split; intros F; try reflexivity.
    apply I in F. discriminate.
Qed.

Lemma convert_white_background_witness :
  surface_calls
    (CurtailModule.convert host_100x50 "photo.png" "jpg" CurtailModule.no_options)
  = [fillRect "#FFF" (num 0) (num 0) (num 100) (num 50);
     drawImage3 (loaded (source_image "photo.png" None) 100 50) (num 0) (num 0)].
Proof.
  apply (proj1 (proj1 convert_white_background host_100x50 "photo.png" "jpg"
                  CurtailModule.no_options 100 50 ltac:(discriminate) eq_refl)).
  left. reflexivity.
Defined.

(** C5.  When the target format is the extension of the source locator,
    [convert] returns [undefined]: no promise exists, so nothing is resolved
    or rejected, no canvas and no image element was created, and nothing
    else has happened.  This is the exported function of
    src/unnamed/part_000.  The method of the class in src/dist/curtail.js
    does not return: [convert("photo.png", FORMAT.PNG)] throws a
    [ReferenceError] at the unbound [extract], before the formats are
    compared and before the warning. *)
Theorem convert_same_format_returns_nothing :
  (forall host path format options,
     ext (utils.extractFileInfo path) = format ->
     CurtailModule.convert host path format options =
       {| returned := undefined; final := initial |}) /\
  CurtailClass.convert CurtailClass.new_Curtail host_100x50 "photo.png"
    CurtailClass.PNG
  = {| returned := thrown (ReferenceError "extract"); final := initial |}.
Proof.
  split; [| reflexivity].
  intros host path format options E. unfold CurtailModule.convert.
  apply String.eqb_eq in E. rewrite E. reflexivity.
Qed.

Lemma convert_same_format_returns_nothing_witness :
  CurtailModule.convert host_100x50 "photo.jpg" "jpg" CurtailModule.no_options =
    {| returned := undefined; final := initial |}.
Proof.
  apply (proj1 convert_same_format_returns_nothing). reflexivity.
Defined.

(** The method of the class never gets that far: every call throws at
    [extract], before the formats are compared, leaving no warning, no
    canvas, no image element and no promise. *)
Lemma class_convert_throws (this : CurtailClass.Curtail) (host : Host)
  (src : string) (format : CurtailClass.Format) :
  CurtailClass.convert this host src format =
    {| returned := thrown (ReferenceError "extract"); final := initial |}.
Proof. reflexivity. Qed.

(** ** Pad *)

Lemma num_add (x y : Z) : num (x + y) = (num x + num y)%Qc.
Proof.
  apply Qc_is_canon. unfold num, Qcplus. cbn [this Q2Qc].
  rewrite !Qred_correct, inject_Z_plus. reflexivity.
Qed.

(** Half the padded length minus half the length is the padding. *)
Lemma centered_offset (len padding : Z) :
  (num (len + 2 * padding) / num 2 - num len / num 2)%Qc = num padding.
Proof.
  rewrite num_add, num_mul. field. now apply num_nonzero.
Qed.

Lemma module_pad_surface (host : Host) (path : string) (padding : Z)
  (options : CurtailModule.Options) (w h : Z) :
  answer host (source_image path (CurtailModule.crossOrigin options)) = load w h ->
  let image := loaded (source_image path (CurtailModule.crossOrigin options)) w h in
  let color := assigned "transparent" (CurtailModule.paddingColor options) in
  let o := CurtailModule.pad host path padding options in
  surface_size o = Some (w + 2 * padding, h + 2 * padding) /\
  surface_calls o =
    ((if String.eqb color "transparent" then []
      else [fillRect color (num 0) (num 0)
              (num (w + 2 * padding)) (num (h + 2 * padding))])
     ++ [drawImage5 image
           (num (w + 2 * padding) / num 2 - num w / num 2)%Qc
           (num (h + 2 * padding) / num 2 - num h / num 2)%Qc
           (num w) (num h)])%list.
Proof.
  intros Hl image color o. subst o image color. unfold CurtailModule.pad.
  run_call. rewrite Hl. rewrite !(Z.mul_comm 2 padding).
  destruct (String.eqb _ "transparent"); listeners; any_answer;
    split; reflexivity.
Qed.

(** C6.  When the source loads with size [w] x [h], [pad] with padding [p]
    makes the surface [(w + 2p) x (h + 2p)]; it fills the whole surface with
    [paddingColor] first when that colour is not ['transparent'] and does not
    fill otherwise; it then draws the source, in its own size, at
    [(W/2 - w/2, H/2 - h/2)] for [W x H] the size of the surface, which is
    [(p, p)].  [pad] of a 100x100 source by 10 with the default options gives
    a 120x120 surface with the source drawn at (10, 10). *)
Theorem pad_centres_source :
  (forall host path padding options w h,
     answer host (source_image path (CurtailModule.crossOrigin options)) = load w h ->
     let image := loaded (source_image path (CurtailModule.crossOrigin options)) w h in
     let color := assigned "transparent" (CurtailModule.paddingColor options) in
     let o := CurtailModule.pad host path padding options in
     let W := w + 2 * padding in
     let H := h + 2 * padding in
     let dx := (num W / num 2 - num w / num 2)%Qc in
     let dy := (num H / num 2 - num h / num 2)%Qc in
     surface_size o = Some (W, H) /\
     (color <> "transparent" ->
      surface_calls o =
        [fillRect color (num 0) (num 0) (num W) (num H);
         drawImage5 image dx dy (num w) (num h)]) /\
     (color = "transparent" ->
      surface_calls o = [drawImage5 image dx dy (num w) (num h)]) /\
     dx = num padding /\ dy = num padding) /\
  (forall host path,
     answer host (source_image path None) = load 100 100 ->
     let image := loaded (source_image path None) 100 100 in
     let o := CurtailModule.pad host path 10 CurtailModule.no_options in
     surface_size o = Some (120, 120) /\
     surface_calls o = [drawImage5 image (num 10) (num 10) (num 100) (num 100)]).
Proof.
  split.
  - intros host path padding options w h Hl image color o W H dx dy.
    destruct (module_pad_surface host path padding options w h Hl) as [Es Ec].
    fold image color o W H dx dy in Es, Ec.
    split; [exact Es |]. split; [| split; [| split]].
    + intros Hc. apply String.eqb_neq in Hc. rewrite Hc in Ec. exact Ec.
    + intros Hc. apply String.eqb_eq in Hc. rewrite Hc in Ec. exact Ec.
    + apply centered_offset.
    + apply centered_offset.
  - intros host path Hl image o.
    destruct (module_pad_surface host path 10 CurtailModule.no_options 100 100 Hl)
      as [Es Ec].
    fold image o in Es, Ec. split; [exact Es |]. rewrite Ec.
    cbn [assigned CurtailModule.paddingColor CurtailModule.no_options String.eqb
         Ascii.eqb Bool.eqb app].
    rewrite (centered_offset 100 10). reflexivity.
Qed.

Lemma pad_centres_source_witness :
  surface_size (CurtailModule.pad host_100x100 "photo.png" 10 CurtailModule.no_options)
    = Some (120, 120) /\
  surface_calls (CurtailModule.pad host_100x100 "photo.png" 10 CurtailModule.no_options)
    = [drawImage5 (loaded (source_image "photo.png" None) 100 100)
         (num 10) (num 10) (num 100) (num 100)].
Proof.
  apply (proj2 pad_centres_source host_100x100 "photo.png"). reflexivity.
Defined.

(** ** Crop: the type declared by the encoded image *)








Section Crop.

Variables (host : Host) (x y width height w h : Z).




End Crop.




(** ** Load failures *)

(** When the source fails to load, every operation that registers an error
    listener rejects with the value the host passed to it. *)
Lemma source_failure_rejects (host : Host) (err : PlatformError) :
  (forall path x y width height options,
     answer host (source_image path (CurtailModule.crossOrigin options)) = error err ->
     settlement (CurtailModule.crop host path x y width height options)
       = Some (rejected err)) /\
  (forall path format options,
     ext (utils.extractFileInfo path) <> format ->
     answer host (source_image path (CurtailModule.crossOrigin options)) = error err ->
     settlement (CurtailModule.convert host path format options)
       = Some (rejected err)) /\
  (forall path dimension size options,
     answer host (source_image path (CurtailModule.crossOrigin options)) = error err ->
     settlement (CurtailModule.resize host path dimension size options)
       = Some (rejected err)) /\
  (forall path padding options,
     answer host (source_image path (CurtailModule.crossOrigin options)) = error err ->
     settlement (CurtailModule.pad host path padding options)
       = Some (rejected err)) /\
  (forall this src x y width height,
     answer host (source_image src (CurtailClass.crossOrigin this)) = error err ->
     settlement (CurtailClass.crop this host src x y width height)
       = Some (rejected err)) /\
  (forall this src dimension size preserveAspectRatio,
     answer host (source_image src (CurtailClass.crossOrigin this)) = error err ->
     settlement (CurtailClass.resize this host src dimension size preserveAspectRatio)
       = Some (rejected err)).
Proof.
  repeat split.
  - intros * H. unfold CurtailModule.crop. source_answer H. reflexivity.
  - intros * He H. unfold CurtailModule.convert.
    apply String.eqb_neq in He. rewrite He. source_answer H. reflexivity.
  - intros * H. unfold CurtailModule.resize. source_answer H. reflexivity.
  - intros * H. unfold CurtailModule.pad. source_answer H. reflexivity.
  - intros * H. unfold CurtailClass.crop. source_answer H. reflexivity.
  - intros * H. unfold CurtailClass.resize. source_answer H. reflexivity.
Qed.

(** When the encoded image fails to load, [convert] and [pad], and [crop] of
    the class, reject with the value the host passed. *)
Lemma result_failure_rejects (host : Host) (err : PlatformError)
  (r : HTMLImageElement) :
  (forall path format options,
     ext (utils.extractFileInfo path) <> format ->
     let o := CurtailModule.convert host path format options in
     resultImage (final o) = Some r -> answer host r = error err ->
     settlement o = Some (rejected err)) /\
  (forall path padding options,
     let o := CurtailModule.pad host path padding options in
     resultImage (final o) = Some r -> answer host r = error err ->
     settlement o = Some (rejected err)) /\
  (forall this src x y width height,
     let o := CurtailClass.crop this host src x y width height in
     resultImage (final o) = Some r -> answer host r = error err ->
     settlement o = Some (rejected err)).
Proof.
  repeat split.
  - intros * He o. subst o. unfold CurtailModule.convert.
    apply String.eqb_neq in He. rewrite He. result_answer r.
  - intros path padding options o. subst o. unfold CurtailModule.pad.
    result_answer r.
  - intros this src x y width height o. subst o. unfold CurtailClass.crop.
    result_answer r.
Qed.

(** [crop] of the exported functions does not: its error listener stops at
    [loadCroppedImage] before it reaches [reject], and the promise stays
    pending. *)
Lemma module_crop_result_failure (host : Host) (err : PlatformError)
  (r : HTMLImageElement) (path : string) (x y width height : Z)
  (options : CurtailModule.Options) :
  let o := CurtailModule.crop host path x y width height options in
  resultImage (final o) = Some r -> answer host r = error err ->
  settlement o = Some pending.
Proof.
  intros o. subst o. unfold CurtailModule.crop. result_answer r.
Qed.

(** C9.  [crop("photo.png", 0, 0, 0, 0)] of the exported functions, on a
    host where the file loads and the data URI of the empty surface does
    not: the image requested from [data:,] fails with [platform_error 1],
    and the promise is left pending instead of being rejected with that
    value; the method of the class rejects with it on the same input. *)
Theorem crop_result_failure_not_rejected :
  let o := CurtailModule.crop host_empty_surface "photo.png" 0 0 0 0
             CurtailModule.no_options in
  resultImage (final o) = Some (with_src new_Image "data:,") /\
  answer host_empty_surface (with_src new_Image "data:,")
    = error (platform_error 1) /\
  settlement o = Some pending /\
  settlement (CurtailClass.crop CurtailClass.new_Curtail host_empty_surface
                "photo.png" 0 0 0 0)
    = Some (rejected (platform_error 1)).
Proof. repeat split; reflexivity. Qed.

(** ** File name and extension *)

Lemma prefix_char (c c' : ascii) (s : string) :
  String.prefix (String c "") (String c' s) = Ascii.eqb c c'.
Proof.
  cbn [String.prefix]. destruct (ascii_dec c c') as [<- | N].
  - rewrite Ascii.eqb_refl. destruct s; reflexivity.
  - symmetry. now apply Ascii.eqb_neq.
Qed.

Lemma lastIndexOf_from_absent (c : ascii) (s : string) (i found : Z) :
  contains_char c s = false ->
  lastIndexOf_from (String c "") s i found = found.
Proof.
  revert i found. induction s as [| c' s IH]; intros i found H.
  - reflexivity.
  - cbn [contains_char] in H. apply orb_false_iff in H. destruct H as [Hc Hs].
    cbn [lastIndexOf_from]. rewrite prefix_char, Hc. now apply IH.
Qed.

Lemma lastIndexOf_from_last (c : ascii) (a e : string) (i found : Z) :
  contains_char c e = false ->
  lastIndexOf_from (String c "") (a ++ String c e) i found
  = i + Z.of_nat (String.length a).
Proof.
  intros He. revert i found. induction a as [| c' a IH]; intros i found.
  - cbn [String.append lastIndexOf_from String.length].
    rewrite prefix_char, Ascii.eqb_refl, lastIndexOf_from_absent by exact He.
    cbn. lia.
  - cbn [String.append lastIndexOf_from String.length]. rewrite IH. lia.
Qed.

Lemma lastIndexOf_last (c : ascii) (a e : string) :
  contains_char c e = false ->
  lastIndexOf (a ++ String c e) (String c "") = Z.of_nat (String.length a).
Proof. intros He. unfold lastIndexOf. now rewrite lastIndexOf_from_last. Qed.

Lemma lastIndexOf_absent (c : ascii) (s : string) :
  contains_char c s = false -> lastIndexOf s (String c "") = -1.
Proof. intros H. unfold lastIndexOf. now apply lastIndexOf_from_absent. Qed.

Lemma length_append (a b : string) :
  String.length (a ++ b) = (String.length a + String.length b)%nat.
Proof. induction a as [| c a IH]; cbn; [reflexivity | now rewrite IH]. Qed.

Lemma append_empty (b : string) : b ++ "" = b.
Proof. induction b as [| c b IH]; cbn [String.append]; [| rewrite IH]; reflexivity. Qed.

Lemma append_assoc (a b c : string) : a ++ b ++ c = (a ++ b) ++ c.
Proof. induction a as [| x a IH]; cbn [String.append]; [| rewrite IH]; reflexivity. Qed.

Lemma substring_prefix (b rest : string) :
  substring 0 (String.length b) (b ++ rest) = b.
Proof.
  induction b as [| c b IH]; cbn.
  - destruct rest; reflexivity.
  - now rewrite IH.
Qed.

Lemma substring_middle (a b rest : string) :
  substring (String.length a) (String.length b) (a ++ b ++ rest) = b.
Proof.
  induction a as [| c a IH]; cbn [String.length String.append substring].
  - apply substring_prefix.
  - exact IH.
Qed.

(** [slice] between two positions inside the string. *)
Lemma slice_middle (a b rest : string) :
  slice (a ++ b ++ rest) (Z.of_nat (String.length a))
    (Some (Z.of_nat (String.length a + String.length b))) = b.
Proof.
  unfold slice, relative_index. rewrite !length_append.
  destruct (Z.ltb_spec (Z.of_nat (String.length a)) 0) as [L | _]; [lia |].
  destruct (Z.ltb_spec (Z.of_nat (String.length a + String.length b)) 0)
    as [L | _]; [lia |].
  rewrite !Z.min_l by lia.
  destruct (Z.leb_spec (Z.of_nat (String.length a + String.length b))
              (Z.of_nat (String.length a))) as [L | L].
  - assert (String.length b = 0%nat) by lia.
    destruct b; [reflexivity | discriminate].
  - rewrite Nat2Z.id.
    replace (Z.to_nat (Z.of_nat (String.length a + String.length b)
                       - Z.of_nat (String.length a)))
      with (String.length b) by lia.
    apply substring_middle.
Qed.

(** [slice] from a position to the end. *)
Lemma slice_suffix (a b : string) :
  slice (a ++ b) (Z.of_nat (String.length a)) None = b.
Proof.
  unfold slice, relative_index. rewrite !length_append.
  destruct (Z.ltb_spec (Z.of_nat (String.length a)) 0) as [L | _]; [lia |].
  rewrite Z.min_l by lia.
  destruct (Z.leb_spec (Z.of_nat (String.length a + String.length b))
              (Z.of_nat (String.length a))) as [L | L].
  - assert (String.length b = 0%nat) by lia.
    destruct b; [reflexivity | discriminate].
  - rewrite Nat2Z.id.
    replace (Z.to_nat (Z.of_nat (String.length a + String.length b)
                       - Z.of_nat (String.length a)))
      with (String.length b) by lia.
    rewrite <- (substring_middle a b "") at 3.
    now rewrite append_empty.
Qed.

(** The extension is the text after the last [.]. *)
Lemma getFileInfo_ext (a e : string) :
  contains_char "." e = false ->
  ext (getFileInfo (a ++ String "." e)) = e.
Proof.
  intros He. unfold getFileInfo. cbn [ext].
  rewrite (lastIndexOf_last "." a e He).
  change (a ++ String "." e) with (a ++ String "." "" ++ e) at 1.
  assert (L : Z.of_nat (String.length a) + 1
              = Z.of_nat (String.length (a ++ String "." ""))).
  { rewrite length_append. cbn. lia. }
  rewrite L.
  rewrite append_assoc. apply slice_suffix.
Qed.

(** Without any [.] the extension is the whole locator. *)
Lemma getFileInfo_ext_no_dot (s : string) :
  contains_char "." s = false -> ext (getFileInfo s) = s.
Proof.
  intros H. unfold getFileInfo. cbn [ext].
  rewrite (lastIndexOf_absent "." s H).
  apply (slice_suffix "" s).
Qed.

Lemma contains_char_append (c : ascii) (a b : string) :
  contains_char c (a ++ b) = (contains_char c a || contains_char c b)%bool.
Proof.
  induction a as [| x a IH]; cbn [String.append contains_char].
  - reflexivity.
  - rewrite IH. apply orb_assoc.
Qed.

(** With a folder in front, the name is the text between the last [/] and
    the last [.]. *)
Lemma getFileInfo_name_in_folder (dir n e : string) :
  contains_char "/" n = false -> contains_char "/" e = false ->
  contains_char "." e = false ->
  name (getFileInfo (dir ++ String "/" (n ++ String "." e))) = n.
Proof.
  intros Hn He Hd. unfold getFileInfo. cbn [name].
  assert (Hs : lastIndexOf (dir ++ String "/" (n ++ String "." e)) "/"
               = Z.of_nat (String.length dir)).
  { apply lastIndexOf_last. rewrite contains_char_append, Hn.
    cbn [contains_char]. rewrite He. reflexivity. }
  assert (Hp : lastIndexOf (dir ++ String "/" (n ++ String "." e)) "."
               = Z.of_nat (String.length (dir ++ String "/" "") + String.length n)).
  { change (dir ++ String "/" (n ++ String "." e))
      with (dir ++ String "/" "" ++ n ++ String "." e).
    rewrite !append_assoc, (lastIndexOf_last "." _ e Hd), length_append.
    reflexivity. }
  rewrite Hs, Hp.
  destruct (Z.ltb_spec (-1) (Z.of_nat (String.length dir))) as [_ | L]; [| lia].
  replace (Z.of_nat (String.length dir) + 1)
    with (Z.of_nat (String.length (dir ++ String "/" "")))
    by (rewrite length_append; cbn; lia).
  change (dir ++ String "/" (n ++ String "." e))
    with (dir ++ String "/" "" ++ n ++ String "." e).
  rewrite (append_assoc dir). apply slice_middle.
Qed.

(** Without a folder the first character of the name is lost. *)
Lemma getFileInfo_name_no_folder (c : ascii) (n e : string) :
  contains_char "/" (String c n) = false -> contains_char "/" e = false ->
  contains_char "." e = false ->
  name (getFileInfo (String c n ++ String "." e)) = n.
Proof.
  intros Hn He Hd. unfold getFileInfo. cbn [name].
  assert (Hs : lastIndexOf (String c n ++ String "." e) "/" = -1).
  { apply lastIndexOf_absent. rewrite contains_char_append, Hn.
    cbn [contains_char]. rewrite He. reflexivity. }
  rewrite Hs, (lastIndexOf_last "." (String c n) e Hd).
  cbn [Z.ltb Z.compare Z.add].
  change (String c n ++ String "." e) with (String c "" ++ n ++ String "." e) at 1.
  change 1 with (Z.of_nat (String.length (String c ""))).
  change (String.length (String c n))
    with (String.length (String c "") + String.length n)%nat.
  apply slice_middle.
Qed.

(** The helper as the spec describes it keeps the whole name. *)
Lemma extractFileInfo_name_no_folder (n e : string) :
  contains_char "/" n = false -> contains_char "/" e = false ->
  contains_char "." e = false ->
  name (utils.extractFileInfo (n ++ String "." e)) = n.
Proof.
  intros Hn He Hd. unfold utils.extractFileInfo. cbn [name].
  assert (Hs : lastIndexOf (n ++ String "." e) "/" = -1).
  { apply lastIndexOf_absent. rewrite contains_char_append, Hn.
    cbn [contains_char]. rewrite He. reflexivity. }
  rewrite Hs, (lastIndexOf_last "." n e Hd).
  change (-1 + 1) with (Z.of_nat (String.length "")).
  change (String.length n) with (String.length "" + String.length n)%nat.
  apply (slice_middle "" n (String "." e)).
Qed.

(** C2.  [getFileInfo("img.png")] returns the name ["mg"], not ["img"]: with
    no [/] in the locator, [nameIndex] stays 0 and the slice starts at
    [nameIndex + 1].  With a folder the name is right, and the extension is
    right in both cases; the inline computation of [crop] in the same file,
    [src.lastIndexOf('/') + 1 || 0], gives ["img"]. *)
Theorem getFileInfo_without_folder :
  getFileInfo "img.png" = {| name := "mg"; ext := "png" |} /\
  getFileInfo "folder/img.png" = {| name := "img"; ext := "png" |} /\
  slice "img.png" (or_else (lastIndexOf "img.png" "/" + 1) 0)
    (Some (lastIndexOf "img.png" ".")) = "img".
Proof. repeat split; reflexivity. Qed.

(** * Further properties *)

(** ** [gcd] and [simplify] beyond positive inputs *)

Lemma gcd_nonzero (a b : Z) : a <> 0 \/ b <> 0 -> gcd a b <> 0.
Proof.
  intros H E. pose proof (gcd_abs a b) as A. rewrite E in A. cbn in A.
  symmetry in A. destruct H as [H | H]; apply H.
  - now apply Z.gcd_eq_0_l in A.
  - now apply Z.gcd_eq_0_r in A.
Qed.

Lemma gcd_divides (a b : Z) : (gcd a b | a) /\ (gcd a b | b).
Proof.
  split; apply Z.divide_abs_l; rewrite gcd_abs.
  - apply Z.gcd_divide_l.
  - apply Z.gcd_divide_r.
Qed.

(** X1.  The loop of [gcd] ends on every pair of integers, zero and
    negative ones included, and returns their greatest common divisor up to
    sign: the result divides both arguments, every common divisor divides
    it, and it is 0 only for (0, 0).  On non-negative arguments the result is
    non-negative and does not depend on their order. *)
Theorem gcd_any_integers (a b : Z) :
  Z.abs (gcd a b) = Z.gcd a b /\
  (gcd a b | a) /\ (gcd a b | b) /\
  (forall d, (d | a) -> (d | b) -> (d | gcd a b)) /\
  (gcd a b = 0 <-> a = 0 /\ b = 0) /\
  (0 <= a -> 0 <= b -> 0 <= gcd a b /\ gcd a b = gcd b a).
Proof.
  split; [apply gcd_abs |].
  split; [apply gcd_divides |]. split; [apply gcd_divides |].
  split; [| split].
  - intros d Ha Hb. apply Z.divide_abs_r. rewrite gcd_abs.
    now apply Z.gcd_greatest.
  - split.
    + intros E. destruct (Z.eq_dec a 0) as [-> | Na].
      * destruct (Z.eq_dec b 0) as [-> | Nb]; [now split |].
        exfalso. apply (gcd_nonzero 0 b); auto.
      * exfalso. apply (gcd_nonzero a b); auto.
    + intros [-> ->]. apply gcd_done.
  - intros Ha Hb. rewrite !gcd_is_Zgcd by assumption. split.
    + apply Z.gcd_nonneg.
    + apply Z.gcd_comm.
Qed.

(** X2.  [simplify] reduces every pair of integers that are not both 0,
    whatever their signs: with [g] the value of [gcd], both divisions are
    exact, the two quotients are coprime and in the ratio of the arguments. *)
Theorem simplify_any_sign (a b : Z) :
  a <> 0 \/ b <> 0 ->
  let g := gcd a b in
  simplify a b = (num (a / g), num (b / g)) /\
  (a / g) * g = a /\ (b / g) * g = b /\
  Z.gcd (a / g) (b / g) = 1 /\
  (a / g) * b = (b / g) * a.
Proof.
  intros H g.
  assert (Hg : g <> 0) by now apply gcd_nonzero.
  destruct (gcd_divides a b) as [[n Hn] [d Hd]]. fold g in Hn, Hd.
  assert (En : a / g = n) by (rewrite Hn; apply Z.div_mul; exact Hg).
  assert (Ed : b / g = d) by (rewrite Hd; apply Z.div_mul; exact Hg).
  split; [| split; [| split; [| split]]].
  - unfold simplify. fold g.
    rewrite !num_div_exact; try assumption; try reflexivity.
    + now exists d.
    + now exists n.
  - rewrite En. symmetry. exact Hn.
  - rewrite Ed. symmetry. exact Hd.
  - rewrite En, Ed.
    assert (A : Z.abs g = Z.gcd a b) by apply gcd_abs.
    assert (G : Z.gcd a b = Z.abs g * Z.gcd n d).
    { rewrite Hn at 1. rewrite Hd at 1.
      rewrite <- Z.gcd_abs_l, <- Z.gcd_abs_r, !Z.abs_mul.
      rewrite (Z.mul_comm (Z.abs n)), (Z.mul_comm (Z.abs d)).
      rewrite Z.gcd_mul_mono_l_nonneg by apply Z.abs_nonneg.
      now rewrite Z.gcd_abs_l, Z.gcd_abs_r. }
    rewrite <- A in G.
    assert (Z.abs g <> 0) by lia.
    pose proof (Z.gcd_nonneg n d). nia.
  - rewrite En, Ed. clearbody g. clear - Hn Hd. subst a b. ring.
Qed.

Lemma simplify_any_sign_witness :
  simplify (-4) 6 = (num (-4 / gcd (-4) 6), num (6 / gcd (-4) 6)) /\
  (-4 / gcd (-4) 6) * gcd (-4) 6 = -4 /\ (6 / gcd (-4) 6) * gcd (-4) 6 = 6 /\
  Z.gcd (-4 / gcd (-4) 6) (6 / gcd (-4) 6) = 1 /\
  (-4 / gcd (-4) 6) * 6 = (6 / gcd (-4) 6) * -4.
Proof. apply (simplify_any_sign (-4) 6). left. discriminate. Defined.

Lemma simplify_scale (a b k : Z) :
  0 < a -> 0 < b -> 0 < k -> simplify (k * a) (k * b) = simplify a b.
Proof.
  intros Ha Hb Hk.
  rewrite !simplify_components by lia.
  rewrite Z.gcd_mul_mono_l_nonneg by lia.
  assert (Z.gcd a b <> 0) by (intros E; apply Z.gcd_eq_0_l in E; lia).
  rewrite !Z.div_mul_cancel_l by lia. reflexivity.
Qed.

(** X3.  The result of [simplify] depends on the ratio only: multiplying
    both arguments by a positive integer does not change it, and simplifying
    the simplified pair returns it again. *)
Theorem simplify_depends_on_ratio (a b k : Z) :
  0 < a -> 0 < b -> 0 < k ->
  simplify (k * a) (k * b) = simplify a b /\
  simplify (a / gcd a b) (b / gcd a b) = simplify a b.
Proof.
  intros Ha Hb Hk. split; [now apply simplify_scale |].
  pose proof (gcd_pos a b Ha Hb) as Hg.
  destruct (gcd_divides a b) as [[n Hn] [d Hd]].
  remember (gcd a b) as g eqn:Eg. clear Eg.
  assert (En : a / g = n) by (rewrite Hn; apply Z.div_mul; lia).
  assert (Ed : b / g = d) by (rewrite Hd; apply Z.div_mul; lia).
  rewrite En, Ed, Hn, Hd, (Z.mul_comm n), (Z.mul_comm d).
  symmetry. apply simplify_scale; nia.
Qed.

Lemma simplify_depends_on_ratio_witness :
  simplify (3 * 16) (3 * 9) = simplify 16 9 /\
  simplify (16 / gcd 16 9) (9 / gcd 16 9) = simplify 16 9.
Proof. apply (simplify_depends_on_ratio 16 9 3); lia. Defined.

(** ** Resize: the rounded dimension *)

Lemma round_half_even_near (n d : Z) :
  0 < d -> - d <= 2 * (round_half_even n d * d - n) <= d.
Proof.
  intros Hd. unfold round_half_even.
  pose proof (Z.div_mod n d ltac:(lia)) as E.
  pose proof (Z.mod_pos_bound n d Hd) as B.
  destruct (Z.compare_spec (2 * (n mod d)) d) as [C | C | C];
    [destruct (Z.even (n / d)) |..]; nia.
Qed.

Section Rounding.

Local Open Scope Q_scope.

Lemma pow2_pos (k : Z) : 0 < 2 ^ k.
Proof. apply Qpower_0_lt. reflexivity. Qed.

Lemma pow2_Z (k : Z) : (0 <= k)%Z -> inject_Z (2 ^ k) == 2 ^ k.
Proof. intros H. now rewrite Zpower_Qpower. Qed.

Lemma pow2_add (a b : Z) : 2 ^ (a + b) == 2 ^ a * 2 ^ b.
Proof. apply Qpower_plus. discriminate. Qed.

Lemma pow2_opp (a : Z) : 2 ^ (- a) == / 2 ^ a.
Proof. apply Qpower_opp. Qed.

Lemma pow2_le (a b : Z) : (a <= b)%Z -> 2 ^ a <= 2 ^ b.
Proof. intros H. apply Qpower_le_compat_l; [exact H | discriminate]. Qed.

Lemma pow2_lt_inv (a b : Z) : 2 ^ a < 2 ^ b -> (a < b)%Z.
Proof. intros H. apply (Qpower_lt_compat_l_inv 2); [exact H | reflexivity]. Qed.

(** The two components of [scaled] are positive and their quotient is
    [n / d * 2^k]. *)
Lemma scaled_spec (n d k : Z) :
  (0 < n)%Z -> (0 < d)%Z ->
  (0 < fst (scaled n d k))%Z /\ (0 < snd (scaled n d k))%Z /\
  inject_Z (fst (scaled n d k)) == inject_Z n / inject_Z d * 2 ^ k * inject_Z (snd (scaled n d k)).
Proof.
  intros Hn Hd. unfold scaled.
  assert (Nd : ~ inject_Z d == 0) by (unfold Qeq; cbn; lia).
  destruct (Z.leb_spec 0 k) as [K | K]; cbn [fst snd].
  - pose proof (Z.pow_pos_nonneg 2 k ltac:(lia) K).
    split; [nia |]. split; [exact Hd |].
    rewrite inject_Z_mult, pow2_Z by exact K. field. exact Nd.
  - pose proof (Z.pow_pos_nonneg 2 (- k) ltac:(lia) ltac:(lia)).
    split; [exact Hn |]. split; [nia |].
    rewrite inject_Z_mult, pow2_Z by lia.
    replace k with (- - k)%Z at 1 by lia. rewrite pow2_opp.
    field. split; [| exact Nd].
    pose proof (pow2_pos (- k)). lra.
Qed.

Lemma inject_Z_pos (n : Z) : (0 < n)%Z -> 0 < inject_Z n.
Proof. intros H. unfold Qlt. cbn. lia. Qed.

(** [floor_log2 n d] is the binary exponent of [n / d]. *)
Lemma floor_log2_spec (n d : Z) :
  (0 < n)%Z -> (0 < d)%Z ->
  2 ^ floor_log2 n d <= inject_Z n / inject_Z d < 2 ^ (floor_log2 n d + 1).
Proof.
  intros Hn Hd. unfold floor_log2.
  set (e := (Z.log2 n - Z.log2 d)%Z).
  destruct (scaled_spec n d (- e) Hn Hd) as (HN & HD & E).
  destruct (scaled n d (- e)) as [N D]. cbn [fst snd] in *.
  pose proof (inject_Z_pos n Hn) as Pn. pose proof (inject_Z_pos d Hd) as Pd.
  pose proof (inject_Z_pos N HN) as PN. pose proof (inject_Z_pos D HD) as PD.
  set (q := inject_Z n / inject_Z d) in *.
  assert (Q : inject_Z n == q * inject_Z d) by (unfold q; field; lra).
  destruct (Z.log2_spec n Hn) as [An Bn]. destruct (Z.log2_spec d Hd) as [Ad Bd].
  pose proof (Z.log2_nonneg n) as Ln. pose proof (Z.log2_nonneg d) as Ld.
  rewrite Zle_Qle in An, Ad. rewrite Zlt_Qlt in Bn, Bd.
  rewrite !pow2_Z in An, Ad, Bn, Bd by lia.
  replace (Z.succ (Z.log2 n)) with (Z.log2 n + 1)%Z in Bn by lia.
  replace (Z.succ (Z.log2 d)) with (Z.log2 d + 1)%Z in Bd by lia.
  assert (Ee : 2 ^ Z.log2 n == 2 ^ e * 2 ^ Z.log2 d).
  { unfold e. rewrite <- pow2_add. now replace (Z.log2 n - Z.log2 d + Z.log2 d)%Z with (Z.log2 n) by lia. }
  rewrite !pow2_add in Bn, Bd. rewrite pow2_opp in E.
  pose proof (pow2_pos e) as Pe. pose proof (pow2_pos (Z.log2 d)) as Pl.
  pose proof (pow2_pos (Z.log2 n)) as Pl'.
  change (2 ^ 1) with 2 in Bn, Bd.
  assert (Pq : 0 < q) by (unfold q; apply Qlt_shift_div_l; lra).
  assert (E' : inject_Z N * 2 ^ e == q * inject_Z D).
  { rewrite E. field. lra. }
  assert (M1 : 2 ^ e * 2 ^ Z.log2 d <= 2 ^ e * inject_Z d)
    by (apply Qmult_le_l; [exact Pe | exact Ad]).
  assert (M2 : 2 ^ e * inject_Z d < 2 ^ e * (2 ^ Z.log2 d * 2))
    by (apply Qmult_lt_l; [exact Pe | exact Bd]).
  assert (Up : q < 2 ^ e * 2).
  { apply (Qmult_lt_r _ _ (inject_Z d) Pd). lra. }
  assert (Lo : 2 ^ e * (1 # 2) < q).
  { apply (Qmult_lt_r _ _ (inject_Z d) Pd). lra. }
  destruct (Z.leb_spec D N) as [C | C].
  - split; [| rewrite pow2_add; exact Up].
    rewrite Zle_Qle in C.
    apply (Qmult_le_r _ _ (inject_Z D) PD). rewrite <- E'.
    rewrite (Qmult_comm (inject_Z N)). apply Qmult_le_l; [exact Pe | exact C].
  - replace (e - 1 + 1)%Z with e by lia.
    replace (e - 1)%Z with (e + -1)%Z by lia. rewrite pow2_add.
    change (2 ^ (-1)) with (1 # 2).
    split; [lra |].
    rewrite Zlt_Qlt in C.
    apply (Qmult_lt_r _ _ (inject_Z D) PD). rewrite <- E'.
    rewrite (Qmult_comm (inject_Z N)). apply Qmult_lt_l; [exact Pe | exact C].
Qed.

Lemma Qmake_to_pos (m k : Z) :
  (0 < k)%Z -> m # Z.to_pos k == inject_Z m / inject_Z k.
Proof.
  intros H. rewrite (Qmake_Qdiv m (Z.to_pos k)).
  now rewrite Z2Pos.id by exact H.
Qed.

(** Rounding a positive quotient in the normal range moves it by at most the
    relative error [eps]. *)
Lemma round64_pos_near (n d : Z) :
  (0 < n)%Z -> (0 < d)%Z ->
  2 ^ (-1022) <= inject_Z n / inject_Z d ->
  let q := inject_Z n / inject_Z d in
  q - q * eps <= round64_pos n d <= q + q * eps.
Proof.
  intros Hn Hd Hq q.
  destruct (floor_log2_spec n d Hn Hd) as [Lo Up]. fold q in Lo, Up, Hq.
  unfold round64_pos.
  set (E := floor_log2 n d) in *.
  assert (HE : (-1022 <= E)%Z).
  { assert (2 ^ (-1022) < 2 ^ (E + 1)) as H%pow2_lt_inv by lra. lia. }
  rewrite Z.min_l by lia.
  set (s := (52 - E)%Z).
  destruct (scaled_spec n d s Hn Hd) as (HN & HD & ES). fold q in ES.
  destruct (scaled n d s) as [N D]. cbn [fst snd] in *.
  pose proof (round_half_even_near N D HD) as [R1 R2].
  set (m := round_half_even N D) in *.
  rewrite Zle_Qle in R1, R2. unfold Z.sub in R1, R2.
  repeat (rewrite inject_Z_plus in R1 || rewrite inject_Z_mult in R1
          || rewrite inject_Z_opp in R1).
  repeat (rewrite inject_Z_plus in R2 || rewrite inject_Z_mult in R2
          || rewrite inject_Z_opp in R2).
  change (inject_Z 2) with 2 in R1, R2.
  pose proof (inject_Z_pos D HD) as PD.
  pose proof (pow2_pos s) as Ps. pose proof (pow2_pos E) as PE.
  assert (S52 : 2 ^ E * 2 ^ s == 2 ^ 52).
  { rewrite <- pow2_add. unfold s. now replace (E + (52 - E))%Z with 52%Z by lia. }
  set (r := if (0 <=? s)%Z then m # Z.to_pos (2 ^ s) else inject_Z (m * 2 ^ (- s))).
  assert (Er : r * 2 ^ s == inject_Z m).
  { unfold r. destruct (Z.leb_spec 0 s) as [K | K].
    - pose proof (Z.pow_pos_nonneg 2 s ltac:(lia) K).
      rewrite Qmake_to_pos, pow2_Z by assumption. field. lra.
    - rewrite inject_Z_mult, pow2_Z by lia.
      assert (O : 2 ^ s == / 2 ^ (- s))
        by (now rewrite <- pow2_opp, Z.opp_involutive).
      rewrite O. field. pose proof (pow2_pos (- s)). lra. }
  fold r.
  assert (M1 : 2 ^ E * 2 ^ s <= q * 2 ^ s)
    by (apply Qmult_le_r; [exact Ps | exact Lo]).
  change (2 ^ 52) with 4503599627370496 in S52.
  (* everything is compared after multiplying by 2^s * D *)
  assert (X : forall a b, a * (2 ^ s * inject_Z D) <= b * (2 ^ s * inject_Z D) -> a <= b).
  { intros a b H. apply Qmult_le_r in H; [exact H |].
    apply Qmult_lt_0_compat; assumption. }
  assert (M2 : 4503599627370496 * inject_Z D <= q * 2 ^ s * inject_Z D).
  { apply Qmult_le_r; [exact PD | lra]. }
  rewrite <- Er in R1, R2. unfold eps.
  split; apply X; lra.
Qed.
Lemma num_Q (z : Z) : (this (num z) == inject_Z z)%Q.
Proof. unfold num. cbn [this Q2Qc]. apply Qred_correct. Qed.

Lemma round64_zero (q : Q) : q == 0 -> round64 q = 0.
Proof.
  intros E. unfold round64. unfold Qeq in E. cbn in E.
  now replace (Qnum q) with 0%Z by lia.
Qed.

(** Rounding in the normal range: the relative error is at most [eps]. *)
Lemma round64_near (q : Q) :
  2 ^ (-1022) <= q -> q - q * eps <= round64 q <= q + q * eps.
Proof.
  intros Hq. pose proof (pow2_pos (-1022)) as P.
  assert (Pq : 0 < q) by lra.
  destruct q as [n d]. unfold round64. cbn [Qnum Qden].
  destruct n as [| n | n]; [discriminate Pq | | discriminate Pq].
  rewrite (Qmake_Qdiv (Z.pos n) d) in *.
  apply round64_pos_near; [reflexivity | reflexivity | exact Hq].
Qed.

(** Two roundings in a row: a quotient, then a product. *)
Lemma two_roundings (a x1 s y : Q) :
  0 <= a -> 0 <= s ->
  a - a * eps <= x1 <= a + a * eps ->
  x1 * s - x1 * s * eps <= y <= x1 * s + x1 * s * eps ->
  a * s - a * s * (3 * eps) <= y <= a * s + a * s * (3 * eps).
Proof.
  intros Ha Hs [A1 A2] [Y1 Y2].
  assert (U : 0 <= a * s) by now apply Qmult_le_0_compat.
  assert (V1 : (a - a * eps) * s <= x1 * s) by (apply Qmult_le_compat_r; assumption).
  assert (V2 : x1 * s <= (a + a * eps) * s) by (apply Qmult_le_compat_r; assumption).
  unfold eps in *. split; lra.
Qed.

Lemma num_div_Q (p q : Z) :
  this (num p / num q)%Qc == inject_Z p / inject_Z q.
Proof.
  unfold Qcdiv, Qcmult, Qcinv. cbn [this Q2Qc].
  now rewrite !Qred_correct, !num_Q.
Qed.

Lemma num_mul_Q (x : Qc) (s : Z) : this (x * num s)%Qc == this x * inject_Z s.
Proof. unfold Qcmult. cbn [this Q2Qc]. now rewrite Qred_correct, num_Q. Qed.

Lemma div64_Q (x y : Qc) : this (div64 x y) == round64 (this (x / y)%Qc).
Proof. unfold div64. cbn [this Q2Qc]. apply Qred_correct. Qed.

Lemma mul64_Q (x y : Qc) : this (mul64 x y) == round64 (this (x * y)%Qc).
Proof. unfold mul64. cbn [this Q2Qc]. apply Qred_correct. Qed.

(** The value [resize] rounds: [p / q * s] computed in binary64 stays within
    three relative errors of the exact [s * p / q]. *)
Lemma product_near (p q s : Z) :
  (0 < p)%Z -> (0 < q < 2 ^ 53)%Z -> (0 <= s)%Z ->
  let x := inject_Z p / inject_Z q * inject_Z s in
  let y := this (mul64 (div64 (num p) (num q)) (num s)) in
  x - x * (3 * eps) <= y <= x + x * (3 * eps).
Proof.
  intros Hp [Hq Hq'] Hs x y.
  pose proof (inject_Z_pos p Hp) as Pp. pose proof (inject_Z_pos q Hq) as Pq.
  set (a := inject_Z p / inject_Z q) in *.
  assert (Pa : 0 < a) by (unfold a; apply Qlt_shift_div_l; lra).
  assert (La : eps <= a).
  { unfold a. apply Qle_shift_div_l; [exact Pq |].
    rewrite Zlt_Qlt in Hq'. assert (Hp' : (1 <= p)%Z) by lia.
    rewrite Zle_Qle in Hp'.
    change (inject_Z (2 ^ 53)) with 9007199254740992 in Hq'.
    change (inject_Z 1) with 1 in Hp'. unfold eps. lra. }
  pose proof (pow2_le (-1022) (-54) ltac:(lia)) as Tiny.
  change (2 ^ (-54)) with (1 # 18014398509481984) in Tiny.
  (* the quotient *)
  pose proof (div64_Q (num p) (num q)) as E1.
  pose proof (num_div_Q p q) as Ea. fold a in Ea.
  assert (A : a - a * eps <= this (div64 (num p) (num q)) <= a + a * eps).
  { rewrite E1. set (t := this (num p / num q)%Qc) in *.
    pose proof (round64_near t) as N.
    remember (round64 t) as r eqn:Er. clear Er.
    rewrite Ea in N. apply N. unfold eps in La. lra. }
  set (x1 := div64 (num p) (num q)) in *. clear E1.
  (* the product *)
  pose proof (mul64_Q x1 (num s)) as E2. fold y in E2.
  pose proof (num_mul_Q x1 s) as Eb.
  assert (Z0 : (s = 0 \/ 1 <= s)%Z) by lia. destruct Z0 as [-> | Hs1].
  - change (inject_Z 0) with 0 in *.
    rewrite round64_zero in E2 by (rewrite Eb; ring).
    unfold x. rewrite E2. unfold eps. split; lra.
  - rewrite Zle_Qle in Hs1, Hs. change (inject_Z 1) with 1 in Hs1.
    change (inject_Z 0) with 0 in Hs.
    assert (M : this x1 * 1 <= this x1 * inject_Z s).
    { apply Qmult_le_l; [| exact Hs1]. unfold eps in *. lra. }
    apply two_roundings with (x1 := this x1); [lra | exact Hs | exact A |].
    rewrite E2. set (t := this (x1 * num s)%Qc) in *.
    pose proof (round64_near t) as N.
    remember (round64 t) as r eqn:Er. clear Er.
    rewrite Eb in N. apply N. unfold eps in *. lra.
Qed.

(** [Math.round] of that value is an integer nearest to the exact
    [s * p / q], as long as [s * p] stays below 2^50. *)
Lemma rounded_nearest (p q s : Z) :
  (0 < p)%Z -> (0 < q < 2 ^ 53)%Z -> (0 <= s)%Z -> (s * p < 2 ^ 50)%Z ->
  let r := Math_round (mul64 (div64 (num p) (num q)) (num s)) in
  (- q <= 2 * (r * q - s * p) <= q)%Z.
Proof.
  intros Hp Hq Hs Hb r.
  destruct (product_near p q s Hp Hq Hs) as [Y1 Y2].
  set (y := mul64 (div64 (num p) (num q)) (num s)) in *.
  assert (Ey : this (y + Q2Qc (1 # 2))%Qc == this y + (1 # 2)).
  { unfold Qcplus. cbn [this Q2Qc]. now rewrite !Qred_correct. }
  pose proof (Qfloor_le (this (y + Q2Qc (1 # 2))%Qc)) as F1.
  pose proof (Qlt_floor (this (y + Q2Qc (1 # 2))%Qc)) as F2.
  fold (Math_round y) in F1, F2. fold r in F1, F2.
  rewrite Ey in F1, F2. rewrite inject_Z_plus in F2.
  change (inject_Z 1) with 1 in F2.
  destruct Hq as [Hq Hq'].
  pose proof (inject_Z_pos p Hp) as Pp. pose proof (inject_Z_pos q Hq) as Pq.
  set (x := inject_Z p / inject_Z q * inject_Z s) in *.
  assert (Ex : x * inject_Z q == inject_Z (s * p)).
  { unfold x. rewrite inject_Z_mult. field. lra. }
  rewrite Zlt_Qlt in Hb. assert (0 <= s * p)%Z as Hsp by nia.
  rewrite Zle_Qle in Hsp.
  change (inject_Z (2 ^ 50)) with 1125899906842624 in Hb.
  change (inject_Z 0) with 0 in Hsp.
  assert (G1 : inject_Z r * inject_Z q <= (this y + (1 # 2)) * inject_Z q)
    by (apply Qmult_le_compat_r; lra).
  assert (G2 : (this y + (1 # 2)) * inject_Z q < (inject_Z r + 1) * inject_Z q)
    by (apply Qmult_lt_compat_r; lra).
  assert (G3 : (x - x * (3 * eps)) * inject_Z q <= this y * inject_Z q)
    by (apply Qmult_le_compat_r; lra).
  assert (G4 : this y * inject_Z q <= (x + x * (3 * eps)) * inject_Z q)
    by (apply Qmult_le_compat_r; lra).
  rewrite inject_Z_mult in Ex, Hb, Hsp. unfold eps in *.
  assert (U : inject_Z (2 * (r * q)) < inject_Z (2 * (s * p) + q + 1)).
  { inject_Z_out. change (inject_Z 2) with 2. change (inject_Z 1) with 1. lra. }
  assert (L : inject_Z (2 * (s * p) - q - 1) < inject_Z (2 * (r * q))).
  { inject_Z_out. change (inject_Z 2) with 2. change (inject_Z 1) with 1. lra. }
  rewrite <- Zlt_Qlt in U, L. lia.
Qed.

End Rounding.

(** The same with the fraction of [simplify], in terms of the natural
    dimensions. *)
Lemma reduced_nearest (w h size : Z) :
  0 < w < 2 ^ 53 -> 0 < h -> 0 <= size -> size * h < 2 ^ 50 ->
  let r :=
    Math_round
      (mul64 (div64 (num (h / Z.gcd w h)) (num (w / Z.gcd w h))) (num size)) in
  - w <= 2 * (r * w - size * h) <= w.
Proof.
  intros [Hw Hw'] Hh Hs Hb.
  assert (Hg : 0 < Z.gcd w h).
  { pose proof (Z.gcd_nonneg w h).
    assert (Z.gcd w h <> 0) by (intros E; apply Z.gcd_eq_0_l in E; lia). lia. }
  destruct (Z.gcd_divide_l w h) as [q Eq], (Z.gcd_divide_r w h) as [p Ep].
  remember (Z.gcd w h) as g eqn:Eg. clear Eg.
  subst w h. rewrite !Z.div_mul by lia.
  assert (Hq : 0 < q) by nia. assert (Hp : 0 < p) by nia.
  pose proof (rounded_nearest p q size Hp ltac:(nia) Hs ltac:(nia)) as N.
  cbv zeta in N |- *.
  remember (Math_round (mul64 (div64 (num p) (num q)) (num size))) as r eqn:Er.
  clear Er. nia.
Qed.

(** X4.  With the aspect ratio preserved, the dimension [resize] computes is
    an integer nearest to the exact one, for natural dimensions below 2^53
    and a requested size that is not negative and whose product with either
    dimension is below 2^50: by width the new height is at most half a pixel
    away from [size * h / w], by height the new width from [size * w / h].
    (When the exact value lies halfway between two integers, the binary64
    product decides which of the two it is.) *)
Theorem resize_nearest_integer (host : Host) (w h size : Z) :
  0 < w < 2 ^ 53 -> 0 < h < 2 ^ 53 -> 0 <= size ->
  size * w < 2 ^ 50 -> size * h < 2 ^ 50 ->
  forall path options,
    answer host (source_image path (CurtailModule.crossOrigin options)) = load w h ->
    assigned true (CurtailModule.preserveAspectRatio options) = true ->
    exists height' width',
      handle_size (CurtailModule.resize host path "width" size options)
        = Some (size, height') /\
      - w <= 2 * (height' * w - size * h) <= w /\
      handle_size (CurtailModule.resize host path "height" size options)
        = Some (width', size) /\
      - h <= 2 * (width' * h - size * w) <= h.
Proof.
  intros Hw Hh Hs Bw Bh path options Hl Hp.
  eexists _, _. split; [| split; [| split]].
  - apply (module_resize_width host w h size (proj1 Hw) (proj1 Hh) path options Hl Hp).
  - apply reduced_nearest; [exact Hw | exact (proj1 Hh) | exact Hs | exact Bh].
  - apply (module_resize_height host w h size (proj1 Hw) (proj1 Hh) path options Hl Hp).
  - rewrite (Z.gcd_comm w h).
    apply reduced_nearest; [exact Hh | exact (proj1 Hw) | exact Hs | exact Bw].
Qed.

Lemma resize_nearest_integer_witness :
  exists height' width',
    handle_size (CurtailModule.resize host_640x480 "photo.png" "width" 101
                   CurtailModule.no_options) = Some (101, height') /\
    - 640 <= 2 * (height' * 640 - 101 * 480) <= 640 /\
    handle_size (CurtailModule.resize host_640x480 "photo.png" "height" 101
                   CurtailModule.no_options) = Some (width', 101) /\
    - 480 <= 2 * (width' * 480 - 101 * 640) <= 480.
Proof.
  apply (resize_nearest_integer host_640x480 640 480 101);
    [lia | lia | lia | lia | lia | reflexivity | reflexivity].
Defined.

(** X5.  Resizing a dimension to [k] times its natural value, with the
    aspect ratio preserved, gives exactly [k] times the natural size in both
    dimensions, for natural dimensions below 2^53, [k] not negative and
    [k * w * h] below 2^50; with [k = 1] the element keeps its natural
    size. *)
Theorem resize_by_integer_factor (host : Host) (w h k : Z) :
  0 < w < 2 ^ 53 -> 0 < h < 2 ^ 53 -> 0 <= k -> k * w * h < 2 ^ 50 ->
  forall path options,
    answer host (source_image path (CurtailModule.crossOrigin options)) = load w h ->
    assigned true (CurtailModule.preserveAspectRatio options) = true ->
    handle_size (CurtailModule.resize host path "width" (k * w) options)
      = Some (k * w, k * h) /\
    handle_size (CurtailModule.resize host path "height" (k * h) options)
      = Some (k * w, k * h).
Proof.
  intros Hw Hh Hk Hb path options Hl Hp. split.
  - rewrite (module_resize_width host w h (k * w) (proj1 Hw) (proj1 Hh)
               path options Hl Hp).
    pose proof (reduced_nearest w h (k * w) Hw (proj1 Hh) ltac:(nia) Hb) as N.
    cbv zeta in N.
    remember (Math_round _) as r eqn:Er. clear Er.
    do 2 f_equal. nia.
  - rewrite (module_resize_height host w h (k * h) (proj1 Hw) (proj1 Hh)
               path options Hl Hp).
    pose proof (reduced_nearest h w (k * h) Hh (proj1 Hw) ltac:(nia) ltac:(nia)) as N.
    cbv zeta in N. rewrite (Z.gcd_comm h w) in N.
    remember (Math_round _) as r eqn:Er. clear Er.
    do 2 f_equal. nia.
Qed.

Lemma resize_by_integer_factor_witness :
  handle_size (CurtailModule.resize host_640x480 "photo.png" "width" (3 * 640)
                 CurtailModule.no_options) = Some (3 * 640, 3 * 480) /\
  handle_size (CurtailModule.resize host_640x480 "photo.png" "height" (3 * 480)
                 CurtailModule.no_options) = Some (3 * 640, 3 * 480).
Proof.
  apply (resize_by_integer_factor host_640x480 640 480 3);
    [lia | lia | lia | lia | reflexivity | reflexivity].
Defined.



(** ** Resize: what it touches *)

(** X6.  With [preserveAspectRatio] false, [resize] changes the selected
    dimension only: the other one keeps its natural value. *)
Theorem resize_one_dimension (host : Host) (w h size : Z) :
  forall path options,
    answer host (source_image path (CurtailModule.crossOrigin options)) = load w h ->
    assigned true (CurtailModule.preserveAspectRatio options) = false ->
    handle_size (CurtailModule.resize host path "width" size options)
      = Some (size, h) /\
    handle_size (CurtailModule.resize host path "height" size options)
      = Some (w, size).
Proof.
  intros path options Hl Hp.
  split; unfold CurtailModule.resize; run_call; rewrite Hl, Hp; listeners;
    destruct (assigned false (CurtailModule.autoDownload options));
    reflexivity.
Qed.

(** X7.  [resize] works on the image element alone: whatever the host, the
    arguments and the options, it returns a promise, creates no canvas,
    requests no second image and clicks no download link. *)
Theorem resize_uses_no_surface :
  (forall host path dimension size options,
     let o := CurtailModule.resize host path dimension size options in
     returned o = the_promise /\ canvas (final o) = None /\
     resultImage (final o) = None /\ clicked (final o) = []) /\
  (forall this host src dimension size preserveAspectRatio,
     let o := CurtailClass.resize this host src dimension size preserveAspectRatio in
     returned o = the_promise /\ canvas (final o) = None /\
     resultImage (final o) = None /\ clicked (final o) = []).
Proof.
  split.
  - intros host path dimension size options o. subst o.
    unfold CurtailModule.resize. run_call.
    destruct (answer host _); listeners; [| repeat split ..].
    destruct (String.eqb dimension "width");
      [| destruct (String.eqb dimension "height")];
      destruct (assigned true (CurtailModule.preserveAspectRatio options));
      destruct (assigned false (CurtailModule.autoDownload options));
      repeat split.
  - intros this host src dimension size p o. subst o.
    unfold CurtailClass.resize. run_call.
    destruct (answer host _); listeners; repeat split.
Qed.

Lemma resize_one_dimension_witness :
  handle_size (CurtailModule.resize host_100x50 "photo.png" "width" 30
                 {| CurtailModule.preserveAspectRatio := Some false;
                    CurtailModule.paddingColor := None;
                    CurtailModule.autoDownload := None;
                    CurtailModule.crossOrigin := None |})
  = Some (30, 50).
Proof.
  apply (resize_one_dimension host_100x50 100 50 30 "photo.png");
    reflexivity.
Defined.

(** ** Pad, crop and convert: settlement and downloads *)

(** X9.  [pad] once the source and the encoded image have loaded: the
    surface is the padded one, no link is clicked, and the promise is
    fulfilled with the encoded image when [autoDownload] is off; with
    [autoDownload] on, the load listener stops at the unbound [format] and
    the promise stays pending. *)
Theorem pad_settlement (host : Host) (path : string) (padding : Z)
  (options : CurtailModule.Options) (w h w' h' : Z) :
  answer host (source_image path (CurtailModule.crossOrigin options)) = load w h ->
  let image := loaded (source_image path (CurtailModule.crossOrigin options)) w h in
  let color := assigned "transparent" (CurtailModule.paddingColor options) in
  let type := "image/" ++ ext (utils.extractFileInfo path) in
  let r := with_src new_Image (toDataURL host (pad_surface color image padding) type) in
  let o := CurtailModule.pad host path padding options in
  answer host r = load w' h' ->
  canvas (final o) = Some (pad_surface color image padding) /\
  clicked (final o) = [] /\
  (assigned false (CurtailModule.autoDownload options) = false ->
   settlement o = Some (fulfilled (loaded r w' h'))) /\
  (assigned false (CurtailModule.autoDownload options) = true ->
   settlement o = Some pending).
Proof.
  intros Hl image color type r o Hr. subst o.
  unfold CurtailModule.pad. run_call. rewrite Hl. fold color.
  revert Hr. subst r image. unfold pad_surface.
  cbn [loaded img_width img_height with_width with_height].
  destruct (String.eqb color "transparent"); intros Hr; listeners;
    encoded_answer Hr;
    destruct (assigned false (CurtailModule.autoDownload options));
    (split; [reflexivity |]); (split; [reflexivity |]);
    split; intros E; try discriminate E; reflexivity.
Qed.

Lemma pad_settlement_witness :
  settlement (CurtailModule.pad host_100x100 "photo.png" 10
                {| CurtailModule.preserveAspectRatio := None;
                   CurtailModule.paddingColor := Some "white";
                   CurtailModule.autoDownload := Some true;
                   CurtailModule.crossOrigin := None |})
  = Some pending.
Proof.
  apply (pad_settlement host_100x100 "photo.png" 10 _ 100 100 100 100
           eq_refl eq_refl).
  reflexivity.
Defined.

(** The method [crop] of the class once both images have loaded. *)
Lemma class_crop_outcome (this : CurtailClass.Curtail) (host : Host)
  (src : string) (x y width height w h w' h' : Z) :
  answer host (source_image src (CurtailClass.crossOrigin this)) = load w h ->
  let image := loaded (source_image src (CurtailClass.crossOrigin this)) w h in
  let srcName := slice src (or_else (lastIndexOf src "/" + 1) 0)
                   (Some (lastIndexOf src ".")) in
  let srcExt := slice src (lastIndexOf src "." + 1) None in
  let type := "image/" ++ srcExt in
  let r := with_src new_Image
             (replace (toDataURL host (crop_surface image x y width height) type)
                type "image/octet-stream") in
  let o := CurtailClass.crop this host src x y width height in
  answer host r = load w' h' ->
  surface_size o = Some (width, height) /\
  settlement o = Some (fulfilled (loaded r w' h')) /\
  clicked (final o) =
    if CurtailClass.autoDownload this
    then [{| href := img_src r; download := srcName ++ "." ++ srcExt |}]
    else [].
Proof.
  intros Hl image srcName srcExt type r o Hr. subst o.
  unfold CurtailClass.crop. run_call. rewrite Hl. listeners.
  encoded_answer Hr.
  destruct (CurtailClass.autoDownload this); repeat split.
Qed.

(** X10.  [crop] once the source and the encoded image have loaded: the
    surface has the requested size whatever the size of the source, the
    promise is fulfilled with the encoded image, and one link is clicked when
    [autoDownload] is on, none otherwise; its [download] is the name, a dot
    and the extension of the source. *)
Theorem crop_settlement (host : Host) (x y width height w h w' h' : Z) :
  (forall path options,
     answer host (source_image path (CurtailModule.crossOrigin options)) = load w h ->
     let image := loaded (source_image path (CurtailModule.crossOrigin options)) w h in
     let fileInfo := utils.extractFileInfo path in
     let type := "image/" ++ ext fileInfo in
     let r := with_src new_Image
                (replace (toDataURL host (crop_surface image x y width height) type)
                   type "image/octet-stream") in
     let o := CurtailModule.crop host path x y width height options in
     answer host r = load w' h' ->
     surface_size o = Some (width, height) /\
     settlement o = Some (fulfilled (loaded r w' h')) /\
     clicked (final o) =
       if assigned false (CurtailModule.autoDownload options)
       then [{| href := img_src r; download := name fileInfo ++ "." ++ ext fileInfo |}]
       else []) /\
  (forall this src,
     answer host (source_image src (CurtailClass.crossOrigin this)) = load w h ->
     let image := loaded (source_image src (CurtailClass.crossOrigin this)) w h in
     let srcName := slice src (or_else (lastIndexOf src "/" + 1) 0)
                      (Some (lastIndexOf src ".")) in
     let srcExt := slice src (lastIndexOf src "." + 1) None in
     let type := "image/" ++ srcExt in
     let r := with_src new_Image
                (replace (toDataURL host (crop_surface image x y width height) type)
                   type "image/octet-stream") in
     let o := CurtailClass.crop this host src x y width height in
     answer host r = load w' h' ->
     surface_size o = Some (width, height) /\
     settlement o = Some (fulfilled (loaded r w' h')) /\
     clicked (final o) =
       if CurtailClass.autoDownload this
       then [{| href := img_src r; download := srcName ++ "." ++ srcExt |}]
       else []).
Proof.
  split.
  - intros path options Hl image fileInfo type r o Hr. subst o.
    unfold CurtailModule.crop. run_call. rewrite Hl. listeners.
    encoded_answer Hr.
    destruct (assigned false (CurtailModule.autoDownload options));
      repeat split.
  - intros this src Hl. now apply class_crop_outcome.
Qed.

Lemma crop_settlement_witness :
  settlement (CurtailClass.crop CurtailClass.new_Curtail host_100x100
                "folder/photo.png" 10 10 50 50)
  = Some (fulfilled
            (loaded (with_src new_Image "data:image/octet-stream;base64,AAAA")
               100 100)).
Proof.
  apply (proj2 (crop_settlement host_100x100 10 10 50 50 100 100 100 100)
           CurtailClass.new_Curtail "folder/photo.png" eq_refl eq_refl).
Defined.

Lemma append_cons (a : string) (c : ascii) (b : string) :
  a ++ String c b = (a ++ String c "") ++ b.
Proof. now rewrite <- append_assoc. Qed.

(** The name and the extension as [crop] of the class computes them, for a
    file in a folder and for a bare file name. *)
Lemma crop_name_and_ext (folder n e : string) :
  folder = "" \/ (exists dir, folder = dir ++ "/") ->
  contains_char "/" n = false -> contains_char "/" e = false ->
  contains_char "." e = false ->
  let src := folder ++ n ++ String "." e in
  slice src (or_else (lastIndexOf src "/" + 1) 0) (Some (lastIndexOf src ".")) = n /\
  slice src (lastIndexOf src "." + 1) None = e.
Proof.
  intros Hf Hn He Hd src.
  assert (Hdot : lastIndexOf src "." = Z.of_nat (String.length folder + String.length n)).
  { unfold src. rewrite append_assoc, (lastIndexOf_last "." _ e Hd), length_append.
    reflexivity. }
  assert (Hrest : contains_char "/" (n ++ String "." e) = false).
  { rewrite contains_char_append, Hn. cbn [contains_char]. now rewrite He. }
  assert (Hslash : lastIndexOf src "/" + 1 = Z.of_nat (String.length folder)).
  { destruct Hf as [-> | [dir ->]].
    - unfold src. cbn [String.append]. now rewrite lastIndexOf_absent.
    - unfold src. rewrite <- append_assoc. cbn [String.append].
      rewrite (lastIndexOf_last "/" dir _ Hrest), length_append. cbn. lia. }
  split.
  - rewrite Hslash, Hdot.
    replace (or_else (Z.of_nat (String.length folder)) 0)
      with (Z.of_nat (String.length folder))
      by (unfold or_else; destruct (Z.eqb_spec (Z.of_nat (String.length folder)) 0); lia).
    apply slice_middle.
  - rewrite Hdot. unfold src. rewrite append_assoc.
    replace (Z.of_nat (String.length folder + String.length n) + 1)
      with (Z.of_nat (String.length ((folder ++ n) ++ String "." "")))
      by (rewrite !length_append; cbn; lia).
    rewrite (append_cons (folder ++ n) "." e). apply slice_suffix.
Qed.

(** X11.  With [autoDownload] on, [crop] of the class saves the result under
    the file name of the source, folder removed: [n.e] for a locator
    [dir/n.e] and for a bare [n.e] alike. *)
Theorem class_crop_download_name (this : CurtailClass.Curtail) (host : Host)
  (folder n e : string) (x y width height w h w' h' : Z) :
  folder = "" \/ (exists dir, folder = dir ++ "/") ->
  contains_char "/" n = false -> contains_char "/" e = false ->
  contains_char "." e = false ->
  CurtailClass.autoDownload this = true ->
  let src := folder ++ n ++ String "." e in
  answer host (source_image src (CurtailClass.crossOrigin this)) = load w h ->
  let image := loaded (source_image src (CurtailClass.crossOrigin this)) w h in
  let type := "image/" ++ e in
  let r := with_src new_Image
             (replace (toDataURL host (crop_surface image x y width height) type)
                type "image/octet-stream") in
  answer host r = load w' h' ->
  clicked (final (CurtailClass.crop this host src x y width height))
  = [{| href := img_src r; download := n ++ "." ++ e |}].
Proof.
  intros Hf Hn He Hd Ha src Hl image type r Hr.
  destruct (crop_name_and_ext folder n e Hf Hn He Hd) as [En Ee].
  fold src in En, Ee.
  pose proof (class_crop_outcome this host src x y width height w h w' h' Hl)
    as O.
  cbv zeta in O. rewrite En, Ee, Ha in O. apply O. exact Hr.
Qed.

Lemma class_crop_download_name_witness :
  clicked (final (CurtailClass.crop
                    {| CurtailClass.autoDownload := true;
                       CurtailClass.crossOrigin := None |}
                    host_100x100 ("folder/" ++ "photo" ++ String "." "png")
                    10 10 50 50))
  = [{| href := "data:image/octet-stream;base64,AAAA";
        download := "photo.png" |}].
Proof.
  apply (class_crop_download_name
           {| CurtailClass.autoDownload := true; CurtailClass.crossOrigin := None |}
           host_100x100 "folder/" "photo" "png" 10 10 50 50 100 100 100 100);
    try reflexivity.
  right. exists "folder". reflexivity.
Defined.

(** X12.  [convert] once the source and the encoded image have loaded: the
    surface has the size of the source, it is encoded with the type of the
    target format, the promise is fulfilled with the encoded image, and one
    link is clicked when [autoDownload] is on, none otherwise; its
    [download] is the name of the source, a dot and the target format. *)
Theorem convert_settlement (host : Host) (w h w' h' : Z) :
  forall path format options,
    let fileInfo := utils.extractFileInfo path in
    ext fileInfo <> format ->
    answer host (source_image path (CurtailModule.crossOrigin options)) = load w h ->
    let image := loaded (source_image path (CurtailModule.crossOrigin options)) w h in
    let white := includes ["jpg"; "jpeg"; "gif"; "bmp"] format in
    let r := with_src new_Image
               (toDataURL host (convert_surface white image) ("image/" ++ format)) in
    let o := CurtailModule.convert host path format options in
    answer host r = load w' h' ->
    canvas (final o) = Some (convert_surface white image) /\
    settlement o = Some (fulfilled (loaded r w' h')) /\
    clicked (final o) =
      if assigned false (CurtailModule.autoDownload options)
      then [{| href := img_src r; download := name fileInfo ++ "." ++ format |}]
      else [].
Proof.
  intros path format options fileInfo He Hl image white r o Hr. subst o.
  unfold CurtailModule.convert. fold fileInfo.
  apply String.eqb_neq in He. rewrite He. run_call. rewrite Hl.
  revert Hr. subst r white image. unfold convert_surface.
  cbn [loaded img_width img_height with_width with_height].
  destruct (includes _ format); intros Hr; listeners; encoded_answer Hr;
    destruct (assigned false (CurtailModule.autoDownload options));
    repeat split.
Qed.

Lemma convert_settlement_witness :
  settlement (CurtailModule.convert host_100x50 "folder/photo.png" "jpg"
                CurtailModule.no_options)
  = Some (fulfilled
            (loaded (with_src new_Image "data:image/jpg;base64,AAAA") 100 50)).
Proof.
  apply (convert_settlement host_100x50 100 50 100 50
           "folder/photo.png" "jpg" CurtailModule.no_options
           ltac:(discriminate) eq_refl eq_refl).
Defined.

Lemma append_cons_middle (a : string) (c : ascii) (b rest : string) :
  a ++ String c (b ++ rest) = (a ++ String c b) ++ rest.
Proof.
  change (String c (b ++ rest)) with (String c b ++ rest). apply append_assoc.
Qed.

(** ** What the operations never do *)

(** X14.  No link is clicked unless [autoDownload] is on, on any host and
    whatever else is passed; [pad] never clicks one, since its download
    branch stops before the click. *)
Theorem no_download_unless_asked :
  (forall host path x y width height options,
     assigned false (CurtailModule.autoDownload options) = false ->
     clicked (final (CurtailModule.crop host path x y width height options)) = []) /\
  (forall host path format options,
     assigned false (CurtailModule.autoDownload options) = false ->
     clicked (final (CurtailModule.convert host path format options)) = []) /\
  (forall host path padding options,
     clicked (final (CurtailModule.pad host path padding options)) = []) /\
  (forall this host src x y width height,
     CurtailClass.autoDownload this = false ->
     clicked (final (CurtailClass.crop this host src x y width height)) = []) /\
  (forall this host src format,
     CurtailClass.autoDownload this = false ->
     clicked (final (CurtailClass.convert this host src format)) = []).
Proof.
  repeat apply conj.
  - intros * Ha. unfold CurtailModule.crop. rewrite Ha.
    all_answers; reflexivity.
  - intros * Ha. unfold CurtailModule.convert. rewrite Ha.
    destruct (String.eqb _ format); [reflexivity |].
    all_answers; reflexivity.
  - intros *. unfold CurtailModule.pad.
    all_answers; reflexivity.
  - intros * Ha. unfold CurtailClass.crop. rewrite Ha.
    all_answers; reflexivity.
  - intros * Ha. reflexivity.
Qed.

Lemma no_download_unless_asked_witness :
  clicked (final (CurtailModule.crop host_100x100 "photo.png" 10 10 50 50
                    CurtailModule.no_options)) = [].
Proof.
  apply (proj1 no_download_unless_asked host_100x100 "photo.png" 10 10 50 50
           CurtailModule.no_options).
  reflexivity.
Defined.

(** X15.  When the source does not load (an error or a stalled load),
    [crop], [convert] and [pad] of the exported functions and [crop] of the
    class leave the new canvas untouched (300x150, no call on its context),
    request no second image and click no link. *)
Theorem source_failure_draws_nothing (host : Host) :
  (forall path x y width height options,
     (forall w h, answer host (source_image path (CurtailModule.crossOrigin options))
                  <> load w h) ->
     let o := CurtailModule.crop host path x y width height options in
     canvas (final o) = Some new_canvas /\ resultImage (final o) = None /\
     clicked (final o) = []) /\
  (forall path format options,
     ext (utils.extractFileInfo path) <> format ->
     (forall w h, answer host (source_image path (CurtailModule.crossOrigin options))
                  <> load w h) ->
     let o := CurtailModule.convert host path format options in
     canvas (final o) = Some new_canvas /\ resultImage (final o) = None /\
     clicked (final o) = []) /\
  (forall path padding options,
     (forall w h, answer host (source_image path (CurtailModule.crossOrigin options))
                  <> load w h) ->
     let o := CurtailModule.pad host path padding options in
     canvas (final o) = Some new_canvas /\ resultImage (final o) = None /\
     clicked (final o) = []) /\
  (forall this src x y width height,
     (forall w h, answer host (source_image src (CurtailClass.crossOrigin this))
                  <> load w h) ->
     let o := CurtailClass.crop this host src x y width height in
     canvas (final o) = Some new_canvas /\ resultImage (final o) = None /\
     clicked (final o) = []).
Proof.
  repeat apply conj.
  - intros path x y width height options Hl o. subst o.
    unfold CurtailModule.crop. run_call.
    destruct (answer host _); [exfalso; apply (Hl _ _ eq_refl) | |];
      repeat split.
  - intros path format options He Hl o. subst o.
    unfold CurtailModule.convert. apply String.eqb_neq in He. rewrite He.
    run_call.
    destruct (answer host _); [exfalso; apply (Hl _ _ eq_refl) | |];
      repeat split.
  - intros path padding options Hl o. subst o.
    unfold CurtailModule.pad. run_call.
    destruct (answer host _); [exfalso; apply (Hl _ _ eq_refl) | |];
      repeat split.
  - intros this src x y width height Hl o. subst o.
    unfold CurtailClass.crop. run_call.
    destruct (answer host _); [exfalso; apply (Hl _ _ eq_refl) | |];
      repeat split.
Qed.

Lemma source_failure_draws_nothing_witness :
  canvas (final (CurtailModule.pad host_offline "photo.png" 10
                   CurtailModule.no_options)) = Some new_canvas /\
  resultImage (final (CurtailModule.pad host_offline "photo.png" 10
                        CurtailModule.no_options)) = None /\
  clicked (final (CurtailModule.pad host_offline "photo.png" 10
                    CurtailModule.no_options)) = [].
Proof.
  apply (proj1 (proj2 (proj2 (source_failure_draws_nothing host_offline)))
           "photo.png" 10 CurtailModule.no_options).
  intros w h. discriminate.
Defined.

(** X16.  Load failures reject with the value the host passed, unchanged:
    a failure of the source in the four exported functions and in [crop] and
    [resize] of the class, and a failure of the encoded image in [convert]
    and [pad] of the exported functions and in [crop] of the class. *)
Theorem load_failures_reject (host : Host) (err : PlatformError) :
  (forall path x y width height options,
     answer host (source_image path (CurtailModule.crossOrigin options)) = error err ->
     settlement (CurtailModule.crop host path x y width height options)
       = Some (rejected err)) /\
  (forall path format options,
     ext (utils.extractFileInfo path) <> format ->
     answer host (source_image path (CurtailModule.crossOrigin options)) = error err ->
     settlement (CurtailModule.convert host path format options)
       = Some (rejected err)) /\
  (forall path dimension size options,
     answer host (source_image path (CurtailModule.crossOrigin options)) = error err ->
     settlement (CurtailModule.resize host path dimension size options)
       = Some (rejected err)) /\
  (forall path padding options,
     answer host (source_image path (CurtailModule.crossOrigin options)) = error err ->
     settlement (CurtailModule.pad host path padding options)
       = Some (rejected err)) /\
  (forall this src x y width height,
     answer host (source_image src (CurtailClass.crossOrigin this)) = error err ->
     settlement (CurtailClass.crop this host src x y width height)
       = Some (rejected err)) /\
  (forall this src dimension size preserveAspectRatio,
     answer host (source_image src (CurtailClass.crossOrigin this)) = error err ->
     settlement (CurtailClass.resize this host src dimension size preserveAspectRatio)
       = Some (rejected err)) /\
  (forall r path format options,
     ext (utils.extractFileInfo path) <> format ->
     let o := CurtailModule.convert host path format options in
     resultImage (final o) = Some r -> answer host r = error err ->
     settlement o = Some (rejected err)) /\
  (forall r path padding options,
     let o := CurtailModule.pad host path padding options in
     resultImage (final o) = Some r -> answer host r = error err ->
     settlement o = Some (rejected err)) /\
  (forall r this src x y width height,
     let o := CurtailClass.crop this host src x y width height in
     resultImage (final o) = Some r -> answer host r = error err ->
     settlement o = Some (rejected err)).
Proof.
  destruct (source_failure_rejects host err)
    as (S1 & S2 & S3 & S4 & S5 & S6).
  repeat apply conj;
    [ exact S1 | exact S2 | exact S3 | exact S4 | exact S5 | exact S6
    | intros r; apply (result_failure_rejects host err r) .. ].
Qed.

Lemma load_failures_reject_witness :
  settlement (CurtailModule.pad host_no_data_uri "photo.png" 10
                CurtailModule.no_options)
  = Some (rejected (platform_error 2)).
Proof.
  destruct (load_failures_reject host_no_data_uri (platform_error 2))
    as (_ & _ & _ & _ & _ & _ & _ & P & _).
  apply (P (with_src new_Image "data:image/png;base64,AAAA") "photo.png" 10
           CurtailModule.no_options);
    reflexivity.
Defined.

(** X17.  With [autoDownload] on, [resize] and [pad] of the exported
    functions never fulfil their promise, on any host; for [resize] a source
    that loads leaves the promise pending. *)
Theorem autoDownload_blocks_fulfilment :
  (forall host path dimension size options value,
     assigned false (CurtailModule.autoDownload options) = true ->
     settlement (CurtailModule.resize host path dimension size options)
       <> Some (fulfilled value)) /\
  (forall host path padding options value,
     assigned false (CurtailModule.autoDownload options) = true ->
     settlement (CurtailModule.pad host path padding options)
       <> Some (fulfilled value)) /\
  (forall host path dimension size options w h,
     assigned false (CurtailModule.autoDownload options) = true ->
     answer host (source_image path (CurtailModule.crossOrigin options)) = load w h ->
     settlement (CurtailModule.resize host path dimension size options)
       = Some pending).
Proof.
  repeat split.
  - intros * Ha. unfold CurtailModule.resize. rewrite Ha. run_call.
    destruct (answer host _); listeners; try discriminate.
    destruct (String.eqb dimension "width");
      [| destruct (String.eqb dimension "height")];
      destruct (assigned true (CurtailModule.preserveAspectRatio options));
      discriminate.
  - intros * Ha. unfold CurtailModule.pad. rewrite Ha.
    all_answers; discriminate.
  - intros * Ha Hl. unfold CurtailModule.resize. rewrite Ha. run_call.
    rewrite Hl. listeners.
    destruct (String.eqb dimension "width");
      [| destruct (String.eqb dimension "height")];
      destruct (assigned true (CurtailModule.preserveAspectRatio options));
      reflexivity.
Qed.

Lemma autoDownload_blocks_fulfilment_witness :
  settlement (CurtailModule.resize host_100x50 "photo.png" "width" 200
                {| CurtailModule.preserveAspectRatio := None;
                   CurtailModule.paddingColor := None;
                   CurtailModule.autoDownload := Some true;
                   CurtailModule.crossOrigin := None |})
  = Some pending.
Proof.
  apply (proj2 (proj2 autoDownload_blocks_fulfilment) host_100x50 "photo.png"
           "width" 200 _ 100 50); reflexivity.
Defined.

(** ** [getFileInfo] on every kind of locator *)

(** X18.  The extension [getFileInfo] returns is the text after the last
    [.] of the locator, and the whole locator when it has none. *)
Theorem getFileInfo_extension :
  (forall a e, contains_char "." e = false ->
     ext (getFileInfo (a ++ String "." e)) = e) /\
  (forall s, contains_char "." s = false -> ext (getFileInfo s) = s).
Proof. split; [exact getFileInfo_ext | exact getFileInfo_ext_no_dot]. Qed.

Lemma getFileInfo_extension_witness :
  ext (getFileInfo ("archive.tar" ++ String "." "gz")) = "gz".
Proof. apply (proj1 getFileInfo_extension "archive.tar" "gz"). reflexivity. Defined.

(** X19.  The name [getFileInfo] returns for [dir/n.e] is [n]; for a file
    name without folder, [cn.e], it is [n]: the first character [c] is
    lost. *)
Theorem getFileInfo_name :
  (forall dir n e,
     contains_char "/" n = false -> contains_char "/" e = false ->
     contains_char "." e = false ->
     name (getFileInfo (dir ++ String "/" (n ++ String "." e))) = n) /\
  (forall c n e,
     contains_char "/" (String c n) = false -> contains_char "/" e = false ->
     contains_char "." e = false ->
     name (getFileInfo (String c n ++ String "." e)) = n).
Proof.
  split; [exact getFileInfo_name_in_folder | exact getFileInfo_name_no_folder].
Qed.

Lemma getFileInfo_name_witness :
  name (getFileInfo ("assets/img" ++ String "/" ("logo" ++ String "." "png")))
  = "logo".
Proof.
  apply (proj1 getFileInfo_name "assets/img" "logo" "png"); reflexivity.
Defined.

Lemma slice_empty_range (s : string) (from to : Z) :
  0 <= to <= from -> slice s from (Some to) = "".
Proof.
  intros H. unfold slice, relative_index.
  destruct (Z.ltb_spec from 0); [lia |]. destruct (Z.ltb_spec to 0); [lia |].
  destruct (Z.leb_spec (Z.min to (Z.of_nat (String.length s)))
              (Z.min from (Z.of_nat (String.length s)))); [reflexivity | lia].
Qed.

(** X20.  Degenerate locators: when the last [.] is in a folder name,
    [a.b/c], the name is empty and the extension is [b/c]; a locator with
    neither [.] nor [/] gets itself as extension and, as name, itself without
    its first and last characters. *)
Theorem getFileInfo_degenerate :
  (forall a b c,
     contains_char "." b = false -> contains_char "." c = false ->
     contains_char "/" c = false ->
     getFileInfo (a ++ String "." (b ++ String "/" c))
     = {| name := ""; ext := b ++ String "/" c |}) /\
  (forall c m z,
     contains_char "." (String c (m ++ String z "")) = false ->
     contains_char "/" (String c (m ++ String z "")) = false ->
     getFileInfo (String c (m ++ String z ""))
     = {| name := m; ext := String c (m ++ String z "") |}).
Proof.
  split.
  - intros a b c Hb Hc Hs.
    set (src := a ++ String "." (b ++ String "/" c)).
    assert (Hbc : contains_char "." (b ++ String "/" c) = false).
    { rewrite contains_char_append, Hb. cbn [contains_char]. now rewrite Hc. }
    assert (Hdot : lastIndexOf src "." = Z.of_nat (String.length a))
      by now apply lastIndexOf_last.
    assert (Hslash : lastIndexOf src "/"
                     = Z.of_nat (String.length (a ++ String "." b))).
    { unfold src. rewrite append_cons_middle. now apply lastIndexOf_last. }
    unfold getFileInfo. fold src. rewrite Hdot, Hslash. f_equal.
    + destruct (Z.ltb_spec (-1) (Z.of_nat (String.length (a ++ String "." b))));
        [| lia].
      apply slice_empty_range. rewrite length_append. lia.
    + pose proof (getFileInfo_ext a (b ++ String "/" c) Hbc) as E.
      unfold getFileInfo in E. cbn [ext] in E. fold src in E.
      now rewrite Hdot in E.
  - intros c m z Hd Hs.
    set (src := String c (m ++ String z "")).
    unfold getFileInfo. fold src.
    rewrite (lastIndexOf_absent "." src Hd), (lastIndexOf_absent "/" src Hs).
    cbn [Z.ltb Z.compare Z.add]. f_equal.
    + transitivity (slice src 1 (Some (Z.of_nat (1 + String.length m)))).
      * unfold slice, relative_index, src.
        cbn [String.length]. rewrite length_append. cbn [String.length].
        destruct (Z.ltb_spec (Z.of_nat (1 + String.length m)) 0); [lia |].
        cbn [Z.ltb Z.compare].
        replace (Z.max (Z.of_nat (S (String.length m + 1)) + -1) 0)
          with (Z.min (Z.of_nat (1 + String.length m))
                  (Z.of_nat (S (String.length m + 1)))) by lia.
        reflexivity.
      * apply (slice_middle (String c "") m (String z "")).
    + apply (slice_suffix "" src).
Qed.

Lemma getFileInfo_degenerate_witness :
  getFileInfo ("my" ++ String "." ("dir" ++ String "/" "file"))
  = {| name := ""; ext := "dir" ++ String "/" "file" |}.
Proof. apply (proj1 getFileInfo_degenerate "my" "dir" "file"); reflexivity. Defined.

(** ** The class [Curtail]: identifiers that are not bound *)

(** X22.  In the class of src/dist/curtail.js, [convert] reads the unbound
    identifier [extract] in its first statement: every call throws a
    [ReferenceError] before any warning, canvas, image or promise exists.
    [resize] returns a promise, but its load listener reads the unbound
    [math] in its first statement: when the source loads, whatever the
    selector and the size, the element keeps its natural size and the
    promise stays pending. *)
Theorem class_namespaces_unbound :
  (forall this host src format,
     CurtailClass.convert this host src format
     = {| returned := thrown (ReferenceError "extract"); final := initial |}) /\
  (forall this host src dimension size preserveAspectRatio w h,
     answer host (source_image src (CurtailClass.crossOrigin this)) = load w h ->
     let o := CurtailClass.resize this host src dimension size preserveAspectRatio in
     returned o = the_promise /\
     settlement o = Some pending /\
     handle_size o = Some (w, h)).
Proof.
  split.
  - intros this host src format. apply class_convert_throws.
  - intros this host src dimension size p w h Hl o. split.
    + subst o. unfold CurtailClass.resize. run_call. reflexivity.
    + now apply class_resize_stops.
Qed.
